(** * VibePlayer: the playback queue, the playlists and the IndexedDB layer

    A shallow embedding of [src/types.ts], [src/db.ts] and of the two
    versions of the [App] component found in the repository:
    [src/App.tsx] (labelled v1.4.1 in its settings pane) and the file kept
    as [src/unnamed/part_000] (labelled v1.1.2).  Where the two files
    differ, the definitions below take the file as a parameter of type
    [Source]. *)

From Stdlib Require Import ZArith QArith Qround Ascii String.
From stdpp Require Import base list strings gmap sorting.

Close Scope Q_scope.
Open Scope string_scope.

(** ** JavaScript values

    [getSetting] is typed [Promise<any>]: what the component reads back from
    the settings store is an arbitrary value.  Numbers are the integers the
    component itself stores (queue positions). *)

Inductive JSValue :=
| JSUndefined
| JSNull
| JSBool (b : bool)
| JSNumber (n : Z)
| JSString (s : string).

#[global] Instance JSValue_eq_dec : EqDecision JSValue.
Proof. solve_decision. Defined.

(** ToBoolean, as used by [if (shuffle)] and by [||]. *)
Definition truthy (v : JSValue) : bool :=
  match v with
  | JSUndefined | JSNull => false
  | JSBool b => b
  | JSNumber n => negb (n =? 0)%Z
  | JSString s => negb (String.eqb s "")
  end.

(** [a === b]. *)
Definition strict_eq (a b : JSValue) : bool := bool_decide (a = b).

(** [s || d] on a possibly absent string: the empty string is falsy. *)
Definition str_or (s : option string) (d : string) : string :=
  match s with
  | Some x => if String.eqb x "" then d else x
  | None => d
  end.

(** [l[i]] for a number [i]: [undefined] outside [0 .. length-1]. *)
Definition array_get {A : Type} (l : list A) (i : Z) : option A :=
  if (0 <=? i)%Z then l !! Z.to_nat i else None.

(** [l.length]. *)
Definition len {A : Type} (l : list A) : Z := Z.of_nat (length l).

(** What a promise is rejected with: the string given to [reject], or the
    [Error] thrown inside the executor. *)
Inductive Reason := Message (s : string) | Error (s : string).

(** A settled promise. *)
Inductive Promise (A : Type) :=
| Resolved (a : A)
| Rejected (e : Reason).
Arguments Resolved {A} a.
Arguments Rejected {A} e.

(** ** [src/types.ts] *)

Record Blob := { blob_type : string; blob_content : list Z }.

Module Track.
Record t := mk {
  id : string;
  title : string;
  artist : string;
  album : option string;
  duration : Q;
  blob : Blob;
  coverUrl : option string;
  addedAt : Z;
  isFavorite : option bool
}.
End Track.

Module Playlist.
Record t := mk {
  id : string;
  name : string;
  trackIds : list string;
  createdAt : Z
}.
End Playlist.

Module RepeatMode.
Definition None : JSValue := JSString "none".
Definition One : JSValue := JSString "one".
Definition All : JSValue := JSString "all".
End RepeatMode.

(** ** [src/db.ts] *)

Module MusicDB.

Definition DB_NAME : string := "VibePlayerDB".
Definition DB_VERSION : Z := 2.

Inductive StoreName := TRACKS_STORE | PLAYLISTS_STORE | SETTINGS_STORE.

(** The three object stores: tracks and playlists keyed by their [id]
    (the [keyPath]), settings keyed by the key given to [put]. *)
Record IDBDatabase := {
  tracks_store : gmap string Track.t;
  playlists_store : gmap string Playlist.t;
  settings_store : gmap string JSValue
}.

Definition empty_database : IDBDatabase :=
  {| tracks_store := ∅; playlists_store := ∅; settings_store := ∅ |}.

(** [private db: IDBDatabase | null = null]. *)
Record t := { db : option IDBDatabase }.

Definition musicDB : t := {| db := @None IDBDatabase |}.

(** Which of [onsuccess] and [onerror] the platform fires for a request. *)
Inductive ReqOutcome := ReqSuccess | ReqError.

(** [onupgradeneeded]: a store that does not exist yet is created empty. *)
Definition upgrade (disk : option IDBDatabase) : IDBDatabase :=
  default empty_database disk.

Definition init (o : ReqOutcome) (disk : option IDBDatabase) (self : t)
  : t * Promise unit :=
  match o with
  | ReqSuccess => ({| db := Some (upgrade disk) |}, Resolved tt)
  | ReqError => (self, Rejected (Message "Failed to open IndexedDB"))
  end.

(** [getStore]: throws when the database was never opened.  The record
    returned holds the three stores; each operation works on the one it
    names. *)
Definition getStore (name : StoreName) (self : t) : IDBDatabase + Reason :=
  match db self with
  | Some d => inl d
  | None => inr (Error "DB not initialized")
  end.

Definition with_tracks (d : IDBDatabase) (m : gmap string Track.t) : IDBDatabase :=
  {| tracks_store := m; playlists_store := playlists_store d;
     settings_store := settings_store d |}.

Definition with_playlists (d : IDBDatabase) (m : gmap string Playlist.t) : IDBDatabase :=
  {| tracks_store := tracks_store d; playlists_store := m;
     settings_store := settings_store d |}.

Definition with_settings (d : IDBDatabase) (m : gmap string JSValue) : IDBDatabase :=
  {| tracks_store := tracks_store d; playlists_store := playlists_store d;
     settings_store := m |}.

(** A write request: an exception thrown by [getStore] inside the executor
    rejects the promise; otherwise [onsuccess] resolves and [onerror]
    rejects with the operation's message. *)
Definition write (name : StoreName) (o : ReqOutcome) (msg : string)
    (f : IDBDatabase -> IDBDatabase) (self : t) : t * Promise unit :=
  match getStore name self with
  | inr e => (self, Rejected e)
  | inl d =>
      match o with
      | ReqSuccess => ({| db := Some (f d) |}, Resolved tt)
      | ReqError => (self, Rejected (Message msg))
      end
  end.

Definition saveTrack (o : ReqOutcome) (track : Track.t) (self : t) : t * Promise unit :=
  write TRACKS_STORE o "Error saving track"
    (fun d => with_tracks d (<[Track.id track := track]> (tracks_store d))) self.

(** The order of IndexedDB on string keys: code unit by code unit, a proper
    prefix before its extensions.  The ids of the program are ASCII (a UUID,
    or a number written in base 36), one code unit per character. *)
Definition key_le {V : Type} : relation (string * V) :=
  fun x y => Is_true (String.leb x.1 y.1).

#[global] Instance key_le_dec {V : Type} : RelDecision (@key_le V) :=
  fun x y => Is_true_dec (String.leb x.1 y.1).

(** [store.getAll()]: every record of the store, by ascending key. *)
Definition getAll {V : Type} (store : gmap string V) : list V :=
  (merge_sort key_le (map_to_list store)).*2.

Definition getAllTracks (o : ReqOutcome) (self : t) : Promise (list Track.t) :=
  match getStore TRACKS_STORE self with
  | inr e => Rejected e
  | inl d =>
      match o with
      | ReqSuccess => Resolved (getAll (tracks_store d))
      | ReqError => Rejected (Message "Error fetching tracks")
      end
  end.

Definition deleteTrack (o : ReqOutcome) (id : string) (self : t) : t * Promise unit :=
  write TRACKS_STORE o "Error deleting track"
    (fun d => with_tracks d (delete id (tracks_store d))) self.

Definition savePlaylist (o : ReqOutcome) (playlist : Playlist.t) (self : t)
  : t * Promise unit :=
  write PLAYLISTS_STORE o "Error saving playlist"
    (fun d => with_playlists d (<[Playlist.id playlist := playlist]> (playlists_store d)))
    self.

Definition getPlaylists (o : ReqOutcome) (self : t) : Promise (list Playlist.t) :=
  match getStore PLAYLISTS_STORE self with
  | inr e => Rejected e
  | inl d =>
      match o with
      | ReqSuccess => Resolved (getAll (playlists_store d))
      | ReqError => Rejected (Message "Error fetching playlists")
      end
  end.

Definition deletePlaylist (o : ReqOutcome) (id : string) (self : t) : t * Promise unit :=
  write PLAYLISTS_STORE o "Error deleting playlist"
    (fun d => with_playlists d (delete id (playlists_store d))) self.

Definition saveSetting (o : ReqOutcome) (key : string) (value : JSValue) (self : t)
  : t * Promise unit :=
  write SETTINGS_STORE o "Error saving setting"
    (fun d => with_settings d (<[key := value]> (settings_store d))) self.

(** [getSetting]: the executor names no [reject]; [onerror] resolves with
    [null].  A key that was never stored reads as [undefined]. *)
Definition getSetting (o : ReqOutcome) (key : string) (self : t) : Promise JSValue :=
  match getStore SETTINGS_STORE self with
  | inr e => Rejected e
  | inl d =>
      match o with
      | ReqSuccess => Resolved (default JSUndefined (settings_store d !! key))
      | ReqError => Resolved JSNull
      end
  end.

End MusicDB.

(** ** The [App] component: state, handlers and effects *)

(** Which of the two [App] files a definition follows. *)
Inductive Source := AppTsx | Part000.

(** The part of the [HTMLAudioElement] the component drives. *)
Record Audio := {
  a_src : option Blob;
  a_currentTime : Q;
  a_paused : bool
}.

Definition audio_play (a : Audio) : Audio :=
  {| a_src := a_src a; a_currentTime := a_currentTime a; a_paused := false |}.

Definition audio_pause (a : Audio) : Audio :=
  {| a_src := a_src a; a_currentTime := a_currentTime a; a_paused := true |}.

Definition audio_seek (time : Q) (a : Audio) : Audio :=
  {| a_src := a_src a; a_currentTime := time; a_paused := a_paused a |}.

(** [audio.src = URL.createObjectURL(blob); audio.load()]. *)
Definition audio_load (b : Blob) (a : Audio) : Audio :=
  {| a_src := Some b; a_currentTime := 0; a_paused := true |}.

(** The storage requests the component issues; the platform answers each
    with [onsuccess] or [onerror]. *)
Inductive Req :=
| OpenDB
| GetAllTracks
| GetPlaylists
| DeleteTrack (id : string)
| SavePlaylist (id : string)
| SaveSetting (key : string)
| GetSetting (key : string).

(** What the platform contributes to one event: the value of
    [Math.random()], the outcome of each storage request, and the database
    found on disk when it is opened. *)
Record Env := {
  random : Q;
  request : Req -> MusicDB.ReqOutcome;
  disk : option MusicDB.IDBDatabase
}.

(** The platform answers every storage request of the event with
    [onsuccess]. *)
Definition allSucceed (env : Env) : Prop :=
  forall q, request env q = MusicDB.ReqSuccess.

Module App.

(** The values the effects' dependency arrays were last rendered with. *)
Record Deps := {
  d_isPlaying : bool;
  d_index : option Z;
  d_queue : nat;
  d_trackId : option string;
  d_shuffle : JSValue;
  d_repeat : JSValue;
  d_isReady : bool
}.

(** [useState] cells, the two refs, the [musicDB] singleton, and the
    dependencies of the last commit ([None] before the first render).
    [queueRef] stands for the identity of the [currentQueue] array: every
    [setCurrentQueue] installs a new array. *)
Record State := {
  tracks : list Track.t;
  playlists : list Playlist.t;
  currentQueue : list Track.t;
  queueRef : nat;
  currentTrackIndex : option Z;
  isPlaying : bool;
  shuffle : JSValue;
  repeat : JSValue;
  isReady : bool;
  audio : Audio;
  lastTrackId : option string;
  db : MusicDB.t;
  rendered : option Deps
}.

Definition initial : State :=
  {| tracks := []; playlists := []; currentQueue := []; queueRef := 0;
     currentTrackIndex := None; isPlaying := false;
     shuffle := JSBool false; repeat := RepeatMode.None; isReady := false;
     audio := {| a_src := None; a_currentTime := 0; a_paused := true |};
     lastTrackId := None; db := MusicDB.musicDB; rendered := None |}.

Definition setTracks (v : list Track.t) (s : State) : State :=
  {| tracks := v; playlists := playlists s; currentQueue := currentQueue s;
     queueRef := queueRef s; currentTrackIndex := currentTrackIndex s;
     isPlaying := isPlaying s; shuffle := shuffle s; repeat := repeat s;
     isReady := isReady s; audio := audio s; lastTrackId := lastTrackId s;
     db := db s; rendered := rendered s |}.

Definition setPlaylists (v : list Playlist.t) (s : State) : State :=
  {| tracks := tracks s; playlists := v; currentQueue := currentQueue s;
     queueRef := queueRef s; currentTrackIndex := currentTrackIndex s;
     isPlaying := isPlaying s; shuffle := shuffle s; repeat := repeat s;
     isReady := isReady s; audio := audio s; lastTrackId := lastTrackId s;
     db := db s; rendered := rendered s |}.

Definition setCurrentQueue (v : list Track.t) (s : State) : State :=
  {| tracks := tracks s; playlists := playlists s; currentQueue := v;
     queueRef := S (queueRef s); currentTrackIndex := currentTrackIndex s;
     isPlaying := isPlaying s; shuffle := shuffle s; repeat := repeat s;
     isReady := isReady s; audio := audio s; lastTrackId := lastTrackId s;
     db := db s; rendered := rendered s |}.

Definition setCurrentTrackIndex (v : option Z) (s : State) : State :=
  {| tracks := tracks s; playlists := playlists s; currentQueue := currentQueue s;
     queueRef := queueRef s; currentTrackIndex := v;
     isPlaying := isPlaying s; shuffle := shuffle s; repeat := repeat s;
     isReady := isReady s; audio := audio s; lastTrackId := lastTrackId s;
     db := db s; rendered := rendered s |}.

Definition setIsPlaying (v : bool) (s : State) : State :=
  {| tracks := tracks s; playlists := playlists s; currentQueue := currentQueue s;
     queueRef := queueRef s; currentTrackIndex := currentTrackIndex s;
     isPlaying := v; shuffle := shuffle s; repeat := repeat s;
     isReady := isReady s; audio := audio s; lastTrackId := lastTrackId s;
     db := db s; rendered := rendered s |}.

Definition setShuffle (v : JSValue) (s : State) : State :=
  {| tracks := tracks s; playlists := playlists s; currentQueue := currentQueue s;
     queueRef := queueRef s; currentTrackIndex := currentTrackIndex s;
     isPlaying := isPlaying s; shuffle := v; repeat := repeat s;
     isReady := isReady s; audio := audio s; lastTrackId := lastTrackId s;
     db := db s; rendered := rendered s |}.

Definition setRepeat (v : JSValue) (s : State) : State :=
  {| tracks := tracks s; playlists := playlists s; currentQueue := currentQueue s;
     queueRef := queueRef s; currentTrackIndex := currentTrackIndex s;
     isPlaying := isPlaying s; shuffle := shuffle s; repeat := v;
     isReady := isReady s; audio := audio s; lastTrackId := lastTrackId s;
     db := db s; rendered := rendered s |}.

Definition setIsReady (v : bool) (s : State) : State :=
  {| tracks := tracks s; playlists := playlists s; currentQueue := currentQueue s;
     queueRef := queueRef s; currentTrackIndex := currentTrackIndex s;
     isPlaying := isPlaying s; shuffle := shuffle s; repeat := repeat s;
     isReady := v; audio := audio s; lastTrackId := lastTrackId s;
     db := db s; rendered := rendered s |}.

Definition setAudio (v : Audio) (s : State) : State :=
  {| tracks := tracks s; playlists := playlists s; currentQueue := currentQueue s;
     queueRef := queueRef s; currentTrackIndex := currentTrackIndex s;
     isPlaying := isPlaying s; shuffle := shuffle s; repeat := repeat s;
     isReady := isReady s; audio := v; lastTrackId := lastTrackId s;
     db := db s; rendered := rendered s |}.

Definition setLastTrackId (v : option string) (s : State) : State :=
  {| tracks := tracks s; playlists := playlists s; currentQueue := currentQueue s;
     queueRef := queueRef s; currentTrackIndex := currentTrackIndex s;
     isPlaying := isPlaying s; shuffle := shuffle s; repeat := repeat s;
     isReady := isReady s; audio := audio s; lastTrackId := v;
     db := db s; rendered := rendered s |}.

Definition setDb (v : MusicDB.t) (s : State) : State :=
  {| tracks := tracks s; playlists := playlists s; currentQueue := currentQueue s;
     queueRef := queueRef s; currentTrackIndex := currentTrackIndex s;
     isPlaying := isPlaying s; shuffle := shuffle s; repeat := repeat s;
     isReady := isReady s; audio := audio s; lastTrackId := lastTrackId s;
     db := v; rendered := rendered s |}.

Definition setRendered (v : option Deps) (s : State) : State :=
  {| tracks := tracks s; playlists := playlists s; currentQueue := currentQueue s;
     queueRef := queueRef s; currentTrackIndex := currentTrackIndex s;
     isPlaying := isPlaying s; shuffle := shuffle s; repeat := repeat s;
     isReady := isReady s; audio := audio s; lastTrackId := lastTrackId s;
     db := db s; rendered := v |}.

(** [currentTrackIndex !== null ? currentQueue[currentTrackIndex] : null];
    [None] stands for both [null] and [undefined]. *)
Definition currentTrack (s : State) : option Track.t :=
  match currentTrackIndex s with
  | Some i => array_get (currentQueue s) i
  | None => None
  end.

(** *** Transport handlers *)

Definition handleNext (env : Env) (s : State) : State :=
  if (len (currentQueue s) =? 0)%Z then s
  else if strict_eq (repeat s) RepeatMode.One then
    setAudio (audio_play (audio_seek 0 (audio s))) s
  else if truthy (shuffle s) then
    let nextIndex := Qfloor (random env * inject_Z (len (currentQueue s))) in
    setIsPlaying true (setCurrentTrackIndex (Some nextIndex) s)
  else
    let nextIndex :=
      match currentTrackIndex s with Some i => (i + 1)%Z | None => 0%Z end in
    if (nextIndex >=? len (currentQueue s))%Z then
      if strict_eq (repeat s) RepeatMode.All then
        setIsPlaying true (setCurrentTrackIndex (Some 0%Z) s)
      else setIsPlaying false s
    else setIsPlaying true (setCurrentTrackIndex (Some nextIndex) s).

(** JavaScript's [%] is the truncating remainder, [Z.rem]. *)
Definition handlePrev (s : State) : State :=
  if (len (currentQueue s) =? 0)%Z then s
  else
    let prevIndex :=
      match currentTrackIndex s with
      | Some i => Z.rem (i - 1 + len (currentQueue s)) (len (currentQueue s))
      | None => 0%Z
      end in
    setIsPlaying true (setCurrentTrackIndex (Some prevIndex) s).

Definition togglePlay (s : State) : State := setIsPlaying (negb (isPlaying s)) s.

Definition toggleShuffle (s : State) : State :=
  setShuffle (JSBool (negb (truthy (shuffle s)))) s.

(** [modes[(modes.indexOf(repeat) + 1) % modes.length]] with
    [modes = [None, All, One]]; [indexOf] is -1 for any other value. *)
Definition cycleRepeat (s : State) : State :=
  let next :=
    if strict_eq (repeat s) RepeatMode.None then RepeatMode.All
    else if strict_eq (repeat s) RepeatMode.All then RepeatMode.One
    else if strict_eq (repeat s) RepeatMode.One then RepeatMode.None
    else RepeatMode.None in
  setRepeat next s.

(** The three statements every list row and the play-all button run. *)
Definition setQueueAndPlay (queue : list Track.t) (startIndex : Z) (s : State) : State :=
  setIsPlaying true (setCurrentTrackIndex (Some startIndex) (setCurrentQueue queue s)).

(** [l.findIndex(t => t.id === id)]. *)
Definition findIndex (id : string) (l : list Track.t) : Z :=
  match list_find (fun t => Track.id t = id) l with
  | Some (i, _) => Z.of_nat i
  | None => (-1)%Z
  end.

(** A click on row [row] of a rendered list [list]: [src/App.tsx] passes the
    row's position given by [map]; the other file looks the row's track up
    again ([findIndex] by id in the library, [indexOf] in a playlist, whose
    tracks have pairwise different ids). *)
Definition rowClick (src : Source) (list : list Track.t) (row : nat) (s : State) : State :=
  match list !! row with
  | None => s
  | Some track =>
      match src with
      | AppTsx => setQueueAndPlay list (Z.of_nat row) s
      | Part000 => setQueueAndPlay list (findIndex (Track.id track) list) s
      end
  end.

(** [activePlaylist.trackIds.map(id => tracks.find(t => t.id === id)).filter(Boolean)]. *)
Definition activePlaylistTracks (playlistId : string) (s : State) : list Track.t :=
  match list_find (fun p => Playlist.id p = playlistId) (playlists s) with
  | Some (_, p) =>
      omap (fun id => snd <$> list_find (fun t => Track.id t = id) (tracks s))
           (Playlist.trackIds p)
  | None => []
  end.

(** The play-all button, [disabled] on an empty playlist. *)
Definition playAll (playlistId : string) (s : State) : State :=
  match activePlaylistTracks playlistId s with
  | [] => s
  | l => setQueueAndPlay l 0 s
  end.

(** Listeners registered on the audio element. *)
Definition handlePlay (s : State) : State := setIsPlaying true s.
Definition handlePause (s : State) : State := setIsPlaying false s.

(** Where a rejected [play()] promise came from, and its [catch] callback. *)
Inductive PlayOrigin := FromNext | FromPlayEffect | FromLoadEffect.

Definition playRejected (src : Source) (o : PlayOrigin) (s : State) : State :=
  let s' := setAudio (audio_pause (audio s)) s in
  match src, o with
  | AppTsx, FromPlayEffect => setIsPlaying false s'
  | AppTsx, _ => s'
  | Part000, _ => setIsPlaying false s'
  end.

(** *** Effects

    After a batch of state updates React renders again and runs the effects
    whose dependency array changed (all of them on the first render). *)

Definition deps_of (s : State) : Deps :=
  {| d_isPlaying := isPlaying s; d_index := currentTrackIndex s;
     d_queue := queueRef s; d_trackId := Track.id <$> currentTrack s;
     d_shuffle := shuffle s; d_repeat := repeat s; d_isReady := isReady s |}.

Definition changed {A : Type} `{EqDecision A} (f : Deps -> A) (s : State) : bool :=
  match rendered s with
  | Some d => negb (bool_decide (f d = f (deps_of s)))
  | None => true
  end.

(** A setting written from an effect; the promise is dropped. *)
Definition persist (env : Env) (key : string) (value : JSValue) (s : State) : State :=
  setDb (MusicDB.saveSetting (request env (SaveSetting key)) key value (db s)).1 s.

(** [useEffect(..., [isPlaying])]. *)
Definition playEffect (s : State) : State :=
  if changed d_isPlaying s then
    if isPlaying s then setAudio (audio_play (audio s)) s
    else setAudio (audio_pause (audio s)) s
  else s.

(** The effect that loads the current track: keyed on
    [[currentTrack?.id]] and guarded by the [lastTrackId] ref in
    [src/App.tsx], keyed on [[currentTrackIndex, currentQueue]] in the other
    file. *)
Definition loadTrack (env : Env) (track : Track.t) (i : Z) (s : State) : State :=
  let a := audio_load (Track.blob track) (audio s) in
  let a := if isPlaying s then audio_play a else a in
  persist env "lastTrackIndex" (JSNumber i) (setAudio a s).

Definition loadEffect (src : Source) (env : Env) (s : State) : State :=
  match src with
  | AppTsx =>
      if changed d_trackId s then
        match currentTrackIndex s, currentTrack s with
        | Some i, Some track =>
            if bool_decide (lastTrackId s = Some (Track.id track)) then s
            else loadTrack env track i (setLastTrackId (Some (Track.id track)) s)
        | _, _ => s
        end
      else s
  | Part000 =>
      if changed d_index s || changed d_queue s then
        match currentTrackIndex s, currentTrack s with
        | Some i, Some track => loadTrack env track i s
        | _, _ => s
        end
      else s
  end.

(** [useEffect(..., [shuffle, repeat, isReady])], absent from [src/App.tsx]. *)
Definition settingsEffect (src : Source) (env : Env) (s : State) : State :=
  match src with
  | AppTsx => s
  | Part000 =>
      if changed d_shuffle s || changed d_repeat s || changed d_isReady s then
        if isReady s then
          persist env "repeat" (repeat s) (persist env "shuffle" (shuffle s) s)
        else s
      else s
  end.

(** One commit: the effects in the order the file declares them. *)
Definition commit (src : Source) (env : Env) (s : State) : State :=
  let s' :=
    match src with
    | AppTsx => playEffect (loadEffect AppTsx env s)
    | Part000 => settingsEffect Part000 env (loadEffect Part000 env (playEffect s))
    end in
  setRendered (Some (deps_of s)) s'.

(** The cells the handlers own, as opposed to what effects touch (the
    audio element, the [lastTrackId] ref, the store). *)
Definition cells (s : State)
  : list Track.t * list Playlist.t * list Track.t * nat * option Z * bool
    * JSValue * JSValue * bool :=
  (tracks s, playlists s, currentQueue s, queueRef s, currentTrackIndex s,
   isPlaying s, shuffle s, repeat s, isReady s).

(** A state in which no re-render is pending. *)
Definition settled (s : State) : Prop := rendered s = Some (deps_of s).

(** *** Handlers that await the store

    An [await] on a rejected promise ends the handler where it stands. *)

Definition await {A : Type} (p : Promise A) (stop : State) (k : A -> State) : State :=
  match p with
  | Resolved a => k a
  | Rejected _ => stop
  end.

(** The startup effect.  The state set before the last [await] is rendered
    (and its effects run) before the handler resumes. *)
Definition init (src : Source) (env : Env) (s : State) : State :=
  let open := MusicDB.init (request env OpenDB) (disk env) (db s) in
  await open.2 s (fun _ =>
  let s := setDb open.1 s in
  await (MusicDB.getAllTracks (request env GetAllTracks) (db s)) s (fun storedTracks =>
  await (MusicDB.getPlaylists (request env GetPlaylists) (db s)) s (fun storedPlaylists =>
  await (MusicDB.getSetting (request env (GetSetting "shuffle")) "shuffle" (db s)) s
    (fun lastShuffle =>
  await (MusicDB.getSetting (request env (GetSetting "repeat")) "repeat" (db s)) s
    (fun lastRepeat =>
  let s := setCurrentQueue storedTracks
             (setPlaylists storedPlaylists (setTracks storedTracks s)) in
  let s := commit src env s in
  await (MusicDB.getSetting (request env (GetSetting "lastTrackIndex"))
           "lastTrackIndex" (db s)) s (fun lastIndex =>
  let s :=
    match lastIndex with
    | JSNumber n =>
        match array_get storedTracks n with
        | Some _ => setCurrentTrackIndex (Some n) s
        | None => s
        end
    | _ => s
    end in
  let s := if strict_eq lastShuffle JSNull then s else setShuffle lastShuffle s in
  let s := if strict_eq lastRepeat JSNull then s else setRepeat lastRepeat s in
  setIsReady true s)))))).

(** [for (const p of updatedPlaylists) await musicDB.savePlaylist(p)]. *)
Fixpoint savePlaylists (env : Env) (ps : list Playlist.t) (d : MusicDB.t)
  : MusicDB.t * Promise unit :=
  match ps with
  | [] => (d, Resolved tt)
  | p :: ps' =>
      match MusicDB.savePlaylist (request env (SavePlaylist (Playlist.id p))) p d with
      | (d', Resolved _) => savePlaylists env ps' d'
      | (d', Rejected e) => (d', Rejected e)
      end
  end.

Definition withoutTrack (id : string) (p : Playlist.t) : Playlist.t :=
  Playlist.mk (Playlist.id p) (Playlist.name p)
    (filter (fun tid => tid ≠ id) (Playlist.trackIds p)) (Playlist.createdAt p).

(** [currentTrack?.id === id], with the [currentTrack] of the render the
    click happened in. *)
Definition isCurrent (id : string) (s : State) : bool :=
  match currentTrack s with
  | Some t => bool_decide (Track.id t = id)
  | None => false
  end.

Definition removeTrack (src : Source) (env : Env) (id : string) (s : State) : State :=
  let del := MusicDB.deleteTrack (request env (DeleteTrack id)) id (db s) in
  await del.2 s (fun _ =>
  let s1 := setCurrentQueue (filter (fun t => Track.id t ≠ id) (currentQueue s))
              (setTracks (filter (fun t => Track.id t ≠ id) (tracks s))
                 (setDb del.1 s)) in
  let finish (st : State) : State :=
    if isCurrent id s then setCurrentTrackIndex None (setIsPlaying false st) else st in
  match src with
  | AppTsx => finish s1
  | Part000 =>
      let updatedPlaylists := withoutTrack id <$> playlists s in
      let s2 := setPlaylists updatedPlaylists s1 in
      match updatedPlaylists with
      | [] => finish s2
      | _ =>
          let s3 := commit Part000 env s2 in
          let saved := savePlaylists env updatedPlaylists (db s3) in
          let s4 := setDb saved.1 s3 in
          await saved.2 s4 (fun _ => finish s4)
      end
  end).

Definition withTrack (trackId : string) (p : Playlist.t) : Playlist.t :=
  Playlist.mk (Playlist.id p) (Playlist.name p)
    (Playlist.trackIds p ++ [trackId]) (Playlist.createdAt p).

Definition addTrackToPlaylist (env : Env) (playlistId trackId : string) (s : State)
  : State :=
  match list_find (fun p => Playlist.id p = playlistId) (playlists s) with
  | None => s
  | Some (_, playlist) =>
      if bool_decide (trackId ∈ Playlist.trackIds playlist) then s
      else
        let updatedPlaylist := withTrack trackId playlist in
        let saved :=
          MusicDB.savePlaylist (request env (SavePlaylist playlistId))
            updatedPlaylist (db s) in
        await saved.2 s (fun _ =>
          setPlaylists
            ((fun p => if bool_decide (Playlist.id p = playlistId)
                       then updatedPlaylist else p) <$> playlists s)
            (setDb saved.1 s))
  end.

(** *** Events

    One event is one handler run to completion followed by the commit of
    the state it left. *)

Inductive Event :=
| Mount
| Next
| Prev
| TogglePlay
| ToggleShuffle
| CycleRepeat
| RowClick (list : list Track.t) (row : nat)
| PlayAll (playlistId : string)
| RemoveTrack (id : string)
| AddTrackToPlaylist (playlistId trackId : string)
| AudioEnded
| AudioPlay
| AudioPause
| PlayRejected (o : PlayOrigin).

Definition handle (src : Source) (env : Env) (ev : Event) (s : State) : State :=
  match ev with
  | Mount => init src env (commit src env s)
  | Next | AudioEnded => handleNext env s
  | Prev => handlePrev s
  | TogglePlay => togglePlay s
  | ToggleShuffle => toggleShuffle s
  | CycleRepeat => cycleRepeat s
  | RowClick l row => rowClick src l row s
  | PlayAll playlistId => playAll playlistId s
  | RemoveTrack id => removeTrack src env id s
  | AddTrackToPlaylist playlistId trackId => addTrackToPlaylist env playlistId trackId s
  | AudioPlay => handlePlay s
  | AudioPause => handlePause s
  | PlayRejected o => playRejected src o s
  end.

Definition step (src : Source) (env : Env) (ev : Event) (s : State) : State :=
  commit src env (handle src env ev s).

(** A run: each event with the platform's contribution to it. *)
Definition run (src : Source) (evs : list (Env * Event)) (s : State) : State :=
  fold_left (fun st e => step src e.1 e.2 st) evs s.

(** No playlist lists a track twice. *)
Definition playlistsNoDup (s : State) : Prop :=
  Forall (fun p => NoDup (Playlist.trackIds p)) (playlists s).

Definition isInsertion (e : Env * Event) : Prop :=
  match e.2 with
  | AddTrackToPlaylist _ _ => True
  | _ => False
  end.

(** [next()] called once for each platform contribution in [envs]. *)
Definition nexts (src : Source) (envs : list Env) (s : State) : State :=
  run src ((fun e => (e, Next)) <$> envs) s.

(** The transport's invariant: a non-null index is a position of the queue. *)
Definition indexValid (s : State) : Prop :=
  match currentTrackIndex s with
  | Some i => (0 <= i < len (currentQueue s))%Z
  | None => True
  end.

End App.

(** ** Metadata extraction ([getMetadata] inside [handleFileImport]) *)

Module File.
Record t := { name : string; blob : Blob }.
End File.

Module Tag.
Record Picture := { data : option (list Z); format : string }.
Record t := {
  title : option string;
  artist : option string;
  album : option string;
  picture : option Picture
}.
End Tag.

(** What the tag reader does with a file: [window.jsmediatags] is missing,
    it calls [onError], or it calls [onSuccess] with a tag ([None] when
    [tag] or [tag.tags] is missing). *)
Inductive TagReader :=
| Unavailable
| ReadError
| ReadSuccess (tag : option Tag.t).

(** [Partial<Track>], with the four fields [getMetadata] may set. *)
Record Metadata := {
  m_title : option string;
  m_artist : option string;
  m_album : option string;
  m_coverUrl : option string
}.

(** A character of the class [[^/.]]. *)
Definition extChar (c : ascii) : bool :=
  negb (Ascii.eqb c "/" || Ascii.eqb c ".").

Fixpoint allExt (s : string) : bool :=
  match s with
  | EmptyString => true
  | String c r => extChar c && allExt r
  end.

(** Whether [/\.[^/.]+$/] matches at the very start of [s]. *)
Definition matchesAt (s : string) : bool :=
  match s with
  | String c (String c' r) => Ascii.eqb c "." && extChar c' && allExt r
  | _ => false
  end.

(** [name.replace(/\.[^/.]+$/, ...)] with the empty replacement: the
    leftmost match, which runs to the end of the string, is cut off. *)
Fixpoint stripExt (s : string) : string :=
  match s with
  | EmptyString => EmptyString
  | String c r => if matchesAt (String c r) then EmptyString else String c (stripExt r)
  end.

Definition UNKNOWN_ARTIST : string := "Desconhecido".

Section FileImport.

(** [window.btoa], from the platform. *)
Variable btoa : string -> string.

(** [String.fromCharCode] over [new Uint8Array(data)]: each element is
    taken modulo 256. *)
Definition binaryString (data : list Z) : string :=
  string_of_list_ascii (ascii_of_nat ∘ Z.to_nat ∘ (fun b => b mod 256)%Z <$> data).

Definition dataUrl (format : string) (data : list Z) : string :=
  "data:" +:+ format +:+ ";base64," +:+ btoa (binaryString data).

(** The cover: [src/App.tsx] encodes whenever there is a picture (a missing
    [data] gives an empty array), the other file only when the picture has
    [data]. *)
Definition coverUrlOf (src : Source) (tag : option Tag.t) : string :=
  match tag ≫= Tag.picture with
  | None => ""
  | Some pic =>
      match src, Tag.data pic with
      | _, Some data => dataUrl (Tag.format pic) data
      | AppTsx, None => dataUrl (Tag.format pic) []
      | Part000, None => ""
      end
  end.

(** What both failure paths resolve with. *)
Definition fallback (src : Source) (file : File.t) : Metadata :=
  match src with
  | AppTsx =>
      {| m_title := Some (stripExt (File.name file)); m_artist := None;
         m_album := None; m_coverUrl := None |}
  | Part000 =>
      {| m_title := Some (stripExt (File.name file));
         m_artist := Some UNKNOWN_ARTIST;
         m_album := None; m_coverUrl := None |}
  end.

Definition getMetadata (src : Source) (reader : TagReader) (file : File.t)
  : Promise Metadata :=
  match reader with
  | Unavailable => Resolved (fallback src file)
  | ReadError => Resolved (fallback src file)
  | ReadSuccess tag =>
      Resolved
        {| m_title := Some (str_or (tag ≫= Tag.title) (stripExt (File.name file)));
           m_artist := Some (str_or (tag ≫= Tag.artist) UNKNOWN_ARTIST);
           m_album :=
             match src with
             | AppTsx => tag ≫= Tag.album
             | Part000 => Some (str_or (tag ≫= Tag.album) "VibePlayer")
             end;
           m_coverUrl := Some (coverUrlOf src tag) |}
  end.

(** The track the import loop builds from the resolved metadata; [id],
    [now] and the probed [duration] come from the platform. *)
Definition importedTrack (src : Source) (id : string) (now : Z) (duration : Q)
    (file : File.t) (tags : Metadata) : Track.t :=
  {| Track.id := id;
     Track.title := str_or (m_title tags) (stripExt (File.name file));
     Track.artist := str_or (m_artist tags) UNKNOWN_ARTIST;
     Track.album := m_album tags;
     Track.coverUrl := m_coverUrl tags;
     Track.duration := match src with AppTsx => 0 | Part000 => duration end;
     Track.blob := File.blob file;
     Track.addedAt := now;
     Track.isFavorite := Some false |}.

End FileImport.

(** ** Sample data *)

Module Sample.

Definition mp3 : Blob := {| blob_type := "audio/mpeg"; blob_content := [73; 68; 51]%Z |}.

Definition track (id : string) : Track.t :=
  Track.mk id id "Desconhecido" None 0 mp3 None 0 (Some false).

Definition A : Track.t := track "a".
Definition B : Track.t := track "b".
Definition C : Track.t := track "c".

(** A platform on which every request succeeds and [Math.random()] is 0. *)
Definition env : Env :=
  {| random := 0; request := fun _ => MusicDB.ReqSuccess; disk := None |}.

(** The state after the first commit of a freshly mounted component whose
    store was opened. *)
Definition mounted : App.State :=
  App.commit AppTsx env
    (App.setIsReady true
       (App.setDb {| MusicDB.db := Some MusicDB.empty_database |} App.initial)).

(** The same with a queue, a position and the two modes set. *)
Definition player (src : Source) (queue : list Track.t) (i : Z)
    (shuffle repeat : JSValue) : App.State :=
  App.commit src env
    (App.setRepeat repeat
       (App.setShuffle shuffle
          (App.setQueueAndPlay queue i (App.setTracks queue mounted)))).

(** A store holding two tracks and a playlist that lists the first. *)
Definition mix : Playlist.t := Playlist.mk "p" "Mix" ["a"] 0.

Definition stored : Env :=
  {| random := 0; request := fun _ => MusicDB.ReqSuccess;
     disk := Some {| MusicDB.tracks_store := <["b" := B]> (<["a" := A]> ∅);
                     MusicDB.playlists_store := <["p" := mix]> ∅;
                     MusicDB.settings_store := ∅ |} |}.

(** The component is started on that store and the second row of the
    library, track [b], is clicked. *)
Definition listening (src : Source) : App.State :=
  App.run src [(stored, App.Mount); (stored, App.RowClick [A; B] 1)] App.initial.

End Sample.

(** ** The remaining handlers of the two [App] files

    These handlers take the answer of the storage request they await as an
    argument of its own. *)

(** [PlayerMode], the tab shown. *)
Module PlayerMode.
Inductive t := library | playlists | settings | search.
End PlayerMode.

Module Handlers.

Import App.

(** [t.id === id ? updated : t] over a list of tracks. *)
Definition replaceTrack (id : string) (updated : Track.t) (l : list Track.t)
  : list Track.t :=
  (fun t => if bool_decide (Track.id t = id) then updated else t) <$> l.

(** [{ ...track, isFavorite: !track.isFavorite }]: a missing flag counts as
    false. *)
Definition flipFavorite (track : Track.t) : Track.t :=
  Track.mk (Track.id track) (Track.title track) (Track.artist track)
    (Track.album track) (Track.duration track) (Track.blob track)
    (Track.coverUrl track) (Track.addedAt track)
    (Some (negb (default false (Track.isFavorite track)))).

(** [toggleFavorite], which only [part_000] has. *)
Definition toggleFavorite (o : MusicDB.ReqOutcome) (trackId : string) (s : State)
  : State :=
  match list_find (fun t => Track.id t = trackId) (tracks s) with
  | None => s
  | Some (_, track) =>
      let updatedTrack := flipFavorite track in
      let saved := MusicDB.saveTrack o updatedTrack (db s) in
      await saved.2 s (fun _ =>
        setCurrentQueue (replaceTrack trackId updatedTrack (currentQueue s))
          (setTracks (replaceTrack trackId updatedTrack (tracks s))
             (setDb saved.1 s)))
  end.

(** The trash button of the open playlist: [src/App.tsx] asks [confirm]
    first. *)
Definition deletePlaylistClick (src : Source) (confirmed : bool)
    (o : MusicDB.ReqOutcome) (playlistId : string) (s : State) : State :=
  match list_find (fun p => Playlist.id p = playlistId) (playlists s) with
  | None => s
  | Some (_, activePlaylist) =>
      let proceed :=
        match src with AppTsx => confirmed | Part000 => true end in
      if proceed then
        let deleted := MusicDB.deletePlaylist o (Playlist.id activePlaylist) (db s) in
        await deleted.2 s (fun _ =>
          setPlaylists
            (filter (fun x => Playlist.id x ≠ Playlist.id activePlaylist) (playlists s))
            (setDb deleted.1 s))
      else s
  end.

(** A click on the [X] button of row [row] of the open playlist.
    [src/App.tsx] stops the click at the button, saves the playlist without
    the row's track (not awaiting the store) and installs it.  [part_000]
    calls [addTrackToPlaylist] with the row's track and does not stop the
    click, which then reaches the [onClick] of the row the button sits in:
    the playlist's tracks become the queue, positioned at the row's track,
    and playback is requested. *)
Definition playlistRowRemove (src : Source) (env : Env) (playlistId : string)
    (row : nat) (s : State) : State :=
  match list_find (fun p => Playlist.id p = playlistId) (playlists s) with
  | None => s
  | Some (_, activePlaylist) =>
      match activePlaylistTracks playlistId s !! row with
      | None => s
      | Some track =>
          match src with
          | AppTsx =>
              let updated := withoutTrack (Track.id track) activePlaylist in
              let saved :=
                MusicDB.savePlaylist
                  (request env (SavePlaylist (Playlist.id activePlaylist)))
                  updated (db s) in
              setPlaylists
                ((fun pl => if bool_decide (Playlist.id pl = Playlist.id activePlaylist)
                            then updated else pl) <$> playlists s)
                (setDb saved.1 s)
          | Part000 =>
              rowClick Part000 (activePlaylistTracks playlistId s) row
                (addTrackToPlaylist env (Playlist.id activePlaylist) (Track.id track) s)
          end
      end
  end.

(** The tracks offered by the add-from-library sheet of a playlist: those
    the playlist does not list, or all of them when there is no such
    playlist. *)
Definition libraryCandidates (playlistId : string) (s : State) : list Track.t :=
  match list_find (fun p => Playlist.id p = playlistId) (playlists s) with
  | Some (_, p) => filter (fun t => Track.id t ∉ Playlist.trackIds p) (tracks s)
  | None => tracks s
  end.

(** What the platform contributes to one picked file: the tag reader's
    answer, the probed duration, the generated id, [Date.now()] and the
    answer to the [saveTrack] request. *)
Record Picked := {
  file : File.t;
  reader : TagReader;
  probed : Q;
  newId : string;
  now : Z;
  saved : MusicDB.ReqOutcome
}.

(** [file.type.startsWith('audio/')]. *)
Definition isAudio (f : File.t) : bool :=
  String.prefix "audio/" (blob_type (File.blob f)).

Section FileLoop.

Variable btoa : string -> string.

(** The loop of [handleFileImport].  A rejected [saveTrack] ends the
    handler in [src/App.tsx]; [part_000] wraps each file in [try]/[catch]
    and goes on with the next one. *)
Fixpoint importFiles (src : Source) (files : list Picked) (d : MusicDB.t)
    (newTracksBatch : list Track.t) : MusicDB.t * Promise (list Track.t) :=
  match files with
  | [] => (d, Resolved newTracksBatch)
  | f :: rest =>
      if isAudio (file f) then
        match getMetadata btoa src (reader f) (file f) with
        | Resolved tags =>
            let track := importedTrack src (newId f) (now f) (probed f) (file f) tags in
            match MusicDB.saveTrack (saved f) track d with
            | (d', Resolved _) => importFiles src rest d' (newTracksBatch ++ [track])%list
            | (d', Rejected e) =>
                match src with
                | AppTsx => (d', Rejected e)
                | Part000 => importFiles src rest d' newTracksBatch
                end
            end
        | Rejected e =>
            match src with
            | AppTsx => (d, Rejected e)
            | Part000 => importFiles src rest d newTracksBatch
            end
        end
      else importFiles src rest d newTracksBatch
  end.

(** [handleFileImport]: nothing happens on an empty selection; otherwise
    the batch is appended to the tracks ([part_000] does so only for a
    non-empty batch, and also makes the new library the queue while the
    library tab is shown). *)
Definition handleFileImport (src : Source) (activeTab : PlayerMode.t)
    (files : list Picked) (s : State) : State :=
  match files with
  | [] => s
  | _ =>
      let imported := importFiles src files (db s) [] in
      let s1 := setDb imported.1 s in
      await imported.2 s1 (fun newTracksBatch =>
        match src with
        | AppTsx => setTracks (tracks s ++ newTracksBatch)%list s1
        | Part000 =>
            match newTracksBatch with
            | [] => s1
            | _ =>
                let updated := (tracks s ++ newTracksBatch)%list in
                let s2 := setTracks updated s1 in
                match activeTab with
                | PlayerMode.library => setCurrentQueue updated s2
                | _ => s2
                end
            end
        end)
  end.

End FileLoop.

Section CreatePlaylist.

(** [String.prototype.trim], from the platform. *)
Variable trim : string -> string.

(** Creating a playlist: [handleCreatePlaylist] in [part_000], which keeps
    the trimmed name, and the inline handler of [src/App.tsx], which keeps
    the name as typed.  [newId] and [now] come from the platform. *)
Definition handleCreatePlaylist (src : Source) (o : MusicDB.ReqOutcome)
    (newId : string) (now : Z) (newPlaylistName : string) (s : State) : State :=
  if String.eqb (trim newPlaylistName) "" then s
  else
    let newPlaylist :=
      Playlist.mk newId
        (match src with AppTsx => newPlaylistName | Part000 => trim newPlaylistName end)
        [] now in
    let saved := MusicDB.savePlaylist o newPlaylist (db s) in
    await saved.2 s (fun _ =>
      setPlaylists (playlists s ++ [newPlaylist])%list (setDb saved.1 s)).

End CreatePlaylist.

(** Ids of a list of tracks, in order. *)
Definition ids (l : list Track.t) : list string := Track.id <$> l.

(** A picked file that is an audio file and whose [saveTrack] request the
    store answers with success. *)
Definition imports (f : Picked) : bool :=
  isAudio (file f)
  && match saved f with MusicDB.ReqSuccess => true | MusicDB.ReqError => false end.

(** The settings store of a state, when the database is open. *)
Definition settingsOf (s : State) : option (gmap string JSValue) :=
  MusicDB.settings_store <$> MusicDB.db (db s).

(** What the settings store holds under [key]: [None] when the database
    is closed, [Some None] when the key is absent. *)
Definition storedSetting (key : string) (s : State) : option (option JSValue) :=
  (fun m : gmap string JSValue => m !! key) <$> settingsOf s.

(** The store holds the component's current shuffle flag and repeat mode. *)
Definition settingsSaved (s : State) : Prop :=
  isReady s = true
  /\ storedSetting "shuffle" s = Some (Some (shuffle s))
  /\ storedSetting "repeat" s = Some (Some (repeat s)).

(** The last commit rendered the modes and the ready flag of [s0]. *)
Definition modesRendered (s0 s : State) : Prop :=
  exists deps, rendered s = Some deps
    /\ d_shuffle deps = shuffle s0 /\ d_repeat deps = repeat s0
    /\ d_isReady deps = isReady s0.

End Handlers.

(** With [keyPath: 'id'] a record sits under its own id. *)
Definition keyed (d : MusicDB.IDBDatabase) : Prop :=
  (forall k t, MusicDB.tracks_store d !! k = Some t -> Track.id t = k)
  /\ (forall k p, MusicDB.playlists_store d !! k = Some p -> Playlist.id p = k).

(** A list of tracks in ascending order of id. *)
Definition ascendingById (l : list Track.t) : Prop :=
  StronglySorted (fun t u => Is_true (String.leb (Track.id t) (Track.id u))) l.

(** ** More sample data *)

Module Fixture.

(** A store left by an earlier session: three tracks, the second one last
    played, shuffle on and repeat all. *)
Definition database : MusicDB.IDBDatabase :=
  {| MusicDB.tracks_store :=
       <["c" := Sample.C]> (<["b" := Sample.B]> (<["a" := Sample.A]> ∅));
     MusicDB.playlists_store := <["p" := Sample.mix]> ∅;
     MusicDB.settings_store :=
       <["lastTrackIndex" := JSNumber 1]>
         (<["repeat" := RepeatMode.All]> (<["shuffle" := JSBool true]> ∅)) |}.

Definition env : Env :=
  {| random := 0; request := fun _ => MusicDB.ReqSuccess; disk := Some database |}.

(** The component started on that store. *)
Definition resumed (src : Source) : App.State :=
  App.step src env App.Mount App.initial.

(** A platform whose store refuses every request. *)
Definition failing : Env :=
  {| random := 0; request := fun _ => MusicDB.ReqError; disk := Some database |}.

End Fixture.

(** * Properties *)

(** ** The persistent store *)

Lemma write_error name msg f self d :
  MusicDB.db self = Some d ->
  MusicDB.write name MusicDB.ReqError msg f self = (self, Rejected (Message msg)).
Proof. intros Hd. unfold MusicDB.write, MusicDB.getStore. by rewrite Hd. Qed.

Lemma write_closed name o msg f self :
  MusicDB.db self = None ->
  MusicDB.write name o msg f self = (self, Rejected (Error "DB not initialized")).
Proof. intros Hd. unfold MusicDB.write, MusicDB.getStore. by rewrite Hd. Qed.

(** C9, as stated, fails on [getSetting]: with the database open and the
    request answered by [onerror], the promise resolves with [null]. *)
Lemma getSetting_error_resolves :
  let self := {| MusicDB.db := Some MusicDB.empty_database |} in
  MusicDB.getSetting MusicDB.ReqError "shuffle" self = Resolved JSNull
  /\ ~ (exists e, MusicDB.getSetting MusicDB.ReqError "shuffle" self = Rejected e).
Proof.
  split; [reflexivity|]. intros [e He]. vm_compute in He. discriminate He.
Qed.

(** C9, amended: when the storage request errors, [init] rejects its
    promise on any handle, the fresh closed one included, and leaves the
    handle as it was; on an open database [saveTrack], [getAllTracks],
    [deleteTrack], [savePlaylist], [getPlaylists], [deletePlaylist] and
    [saveSetting] reject their promise (and leave the store as it was),
    while [getSetting] resolves with [null]. *)
Theorem storage_error_surfaces (self : MusicDB.t) (d : MusicDB.IDBDatabase)
    (disk : option MusicDB.IDBDatabase) (track : Track.t) (playlist : Playlist.t)
    (id key : string) (value : JSValue) :
  MusicDB.init MusicDB.ReqError disk self
    = (self, Rejected (Message "Failed to open IndexedDB"))
  /\ (MusicDB.db self = Some d ->
      MusicDB.saveTrack MusicDB.ReqError track self
        = (self, Rejected (Message "Error saving track"))
      /\ MusicDB.getAllTracks MusicDB.ReqError self
        = Rejected (Message "Error fetching tracks")
      /\ MusicDB.deleteTrack MusicDB.ReqError id self
        = (self, Rejected (Message "Error deleting track"))
      /\ MusicDB.savePlaylist MusicDB.ReqError playlist self
        = (self, Rejected (Message "Error saving playlist"))
      /\ MusicDB.getPlaylists MusicDB.ReqError self
        = Rejected (Message "Error fetching playlists")
      /\ MusicDB.deletePlaylist MusicDB.ReqError id self
        = (self, Rejected (Message "Error deleting playlist"))
      /\ MusicDB.saveSetting MusicDB.ReqError key value self
        = (self, Rejected (Message "Error saving setting"))
      /\ MusicDB.getSetting MusicDB.ReqError key self = Resolved JSNull).
Proof.
  split; [reflexivity|]. intros Hd.
  unfold MusicDB.saveTrack, MusicDB.deleteTrack, MusicDB.savePlaylist,
    MusicDB.deletePlaylist, MusicDB.saveSetting.
  rewrite !(write_error _ _ _ _ d Hd).
  unfold MusicDB.getAllTracks, MusicDB.getPlaylists, MusicDB.getSetting,
    MusicDB.getStore.
  rewrite Hd. repeat split; reflexivity.
Qed.

Lemma storage_error_surfaces_witness :
  let self := {| MusicDB.db := Some MusicDB.empty_database |} in
  MusicDB.init MusicDB.ReqError None MusicDB.musicDB
    = (MusicDB.musicDB, Rejected (Message "Failed to open IndexedDB"))
  /\ MusicDB.saveSetting MusicDB.ReqError "repeat" RepeatMode.All self
    = (self, Rejected (Message "Error saving setting"))
  /\ MusicDB.getSetting MusicDB.ReqError "repeat" self = Resolved JSNull.
Proof.
  intros self.
  pose (track := Track.mk "t" "T" "A" None 0
                   {| blob_type := "audio/mpeg"; blob_content := [] |} None 0 None).
  pose (playlist := Playlist.mk "p" "P" [] 0).
  destruct (storage_error_surfaces MusicDB.musicDB MusicDB.empty_database None
              track playlist "t" "repeat" RepeatMode.All) as [Hinit _].
  destruct (storage_error_surfaces self MusicDB.empty_database None
              track playlist "t" "repeat" RepeatMode.All) as [_ H].
  specialize (H eq_refl).
  split; [exact Hinit|]. split; [apply H | apply H].
Defined.

(** ** Commits leave the React state alone *)

Import App.

Arguments commit : simpl never.
Arguments step : simpl never.

Ltac effect_cases :=
  repeat match goal with
         | |- context [if ?b then _ else _] => destruct b
         | |- context [match ?x with _ => _ end] => destruct x
         end; try reflexivity.

Lemma playEffect_cells s : cells (playEffect s) = cells s.
Proof. unfold playEffect. effect_cases. Qed.

Lemma loadEffect_cells src env s : cells (loadEffect src env s) = cells s.
Proof. unfold loadEffect. effect_cases. Qed.

Lemma settingsEffect_cells src env s : cells (settingsEffect src env s) = cells s.
Proof. unfold settingsEffect. effect_cases. Qed.

Lemma commit_cells src env s : cells (commit src env s) = cells s.
Proof.
  unfold commit. destruct src.
  - transitivity (cells (playEffect (loadEffect AppTsx env s))); [reflexivity|].
    by rewrite playEffect_cells, loadEffect_cells.
  - transitivity
      (cells (settingsEffect Part000 env (loadEffect Part000 env (playEffect s))));
      [reflexivity|].
    by rewrite settingsEffect_cells, loadEffect_cells, playEffect_cells.
Qed.

Lemma cells_inv s s' :
  cells s' = cells s ->
  tracks s' = tracks s /\ playlists s' = playlists s
  /\ currentQueue s' = currentQueue s /\ currentTrackIndex s' = currentTrackIndex s
  /\ isPlaying s' = isPlaying s /\ shuffle s' = shuffle s /\ repeat s' = repeat s
  /\ isReady s' = isReady s /\ queueRef s' = queueRef s.
Proof. unfold cells. intros H. injection H as -> -> -> -> -> -> -> -> ->. done. Qed.

Lemma cells_fields s a b c d e f g h i :
  cells s = (a, b, c, d, e, f, g, h, i) ->
  tracks s = a /\ playlists s = b /\ currentQueue s = c /\ queueRef s = d
  /\ currentTrackIndex s = e /\ isPlaying s = f /\ shuffle s = g
  /\ repeat s = h /\ isReady s = i.
Proof. unfold cells. intros [= <- <- <- <- <- <- <- <- <-]. done. Qed.

Lemma cells_deps s s' : cells s' = cells s -> deps_of s' = deps_of s.
Proof.
  intros H. apply cells_inv in H as (_ & _ & Hq & Hi & Hp & Hs & Hr & Hy & Hg).
  unfold deps_of, currentTrack. by rewrite Hq, Hi, Hp, Hs, Hr, Hy, Hg.
Qed.

Lemma commit_rendered src env s : rendered (commit src env s) = Some (deps_of s).
Proof. reflexivity. Qed.

(** After a commit nothing is pending. *)
Lemma commit_settled src env s : settled (commit src env s).
Proof.
  unfold settled. rewrite commit_rendered.
  by rewrite (cells_deps _ _ (commit_cells src env s)).
Qed.

Lemma changed_settled {A : Type} `{EqDecision A} (f : Deps -> A) s :
  settled s -> changed f s = false.
Proof. unfold settled, changed. intros ->. by rewrite bool_decide_eq_true_2. Qed.

(** With nothing changed since the last commit, no effect runs. *)
Lemma commit_idle src env s : settled s -> commit src env s = s.
Proof.
  intros Hs. unfold commit, loadEffect, settingsEffect, playEffect.
  rewrite !(changed_settled _ _ Hs). simpl.
  destruct src; rewrite <- Hs; by destruct s.
Qed.

Lemma step_cells src env ev s :
  cells (step src env ev s) = cells (handle src env ev s).
Proof. apply commit_cells. Qed.

Lemma queue_nonempty_len {A : Type} (l : list A) : l ≠ [] -> (len l =? 0)%Z = false.
Proof. destruct l; [done|]. intros _. unfold len. simpl. lia. Qed.

(** ** [next()] and [prev()] *)

(** C10: on an empty queue [handleNext] and [handlePrev] return the state
    they were given, whatever the shuffle flag and the repeat mode; no cell
    changes, so no effect runs and nothing is written to the settings
    store. *)
Theorem empty_queue_noop (src : Source) (env : Env) (s : State) :
  currentQueue s = [] ->
  handleNext env s = s /\ handlePrev s = s
  /\ (settled s -> step src env Next s = s /\ step src env Prev s = s).
Proof.
  intros Hq.
  assert (Hn : handleNext env s = s) by (unfold handleNext; by rewrite Hq).
  assert (Hp : handlePrev s = s) by (unfold handlePrev; by rewrite Hq).
  repeat split; try done; unfold step; simpl; rewrite ?Hn, ?Hp;
    by apply commit_idle.
Qed.

Lemma empty_queue_noop_witness :
  step Part000 Sample.env Next Sample.mounted = Sample.mounted
  /\ step Part000 Sample.env Prev Sample.mounted = Sample.mounted.
Proof.
  apply (empty_queue_noop Part000 Sample.env Sample.mounted); reflexivity.
Defined.

(** C3: with repeat none and shuffle off, [next()] at the last position of
    a non-empty queue sets the playing flag to false and keeps the index. *)
Theorem next_at_end_stops (src : Source) (env : Env) (s : State) :
  currentQueue s ≠ [] ->
  repeat s = RepeatMode.None ->
  shuffle s = JSBool false ->
  currentTrackIndex s = Some (len (currentQueue s) - 1)%Z ->
  isPlaying (step src env Next s) = false
  /\ currentTrackIndex (step src env Next s) = currentTrackIndex s
  /\ currentQueue (step src env Next s) = currentQueue s.
Proof.
  intros Hq Hr Hs Hi.
  destruct (cells_inv _ _ (step_cells src env Next s)) as (_ & _ & -> & -> & -> & _).
  simpl. unfold handleNext.
  rewrite (queue_nonempty_len _ Hq), Hr, Hs, Hi. simpl.
  replace (len (currentQueue s) - 1 + 1 >=? len (currentQueue s))%Z with true by lia.
  simpl. by rewrite Hi.
Qed.

Lemma next_at_end_stops_witness :
  isPlaying (step AppTsx Sample.env Next
               (Sample.player AppTsx [Sample.A; Sample.B] 1 (JSBool false) RepeatMode.None))
  = false.
Proof.
  apply (next_at_end_stops AppTsx Sample.env
           (Sample.player AppTsx [Sample.A; Sample.B] 1 (JSBool false) RepeatMode.None));
    vm_compute; congruence.
Defined.

(** C5: with repeat one, [next()] on a non-empty queue only rewinds the
    audio element and asks it to play: the index, the playing flag and every
    other cell stay as they were, shuffle on or off. *)
Theorem next_repeat_one (src : Source) (env : Env) (s : State) :
  currentQueue s ≠ [] ->
  repeat s = RepeatMode.One ->
  handleNext env s = setAudio (audio_play (audio_seek 0 (audio s))) s
  /\ currentTrackIndex (step src env Next s) = currentTrackIndex s
  /\ isPlaying (step src env Next s) = isPlaying s
  /\ cells (step src env Next s) = cells s
  /\ (settled s ->
      step src env Next s = setAudio (audio_play (audio_seek 0 (audio s))) s
      /\ a_currentTime (audio (step src env Next s)) = 0%Q
      /\ a_paused (audio (step src env Next s)) = false
      /\ a_src (audio (step src env Next s)) = a_src (audio s)
      /\ db (step src env Next s) = db s).
Proof.
  intros Hq Hr.
  assert (Hn : handleNext env s = setAudio (audio_play (audio_seek 0 (audio s))) s).
  { unfold handleNext. by rewrite (queue_nonempty_len _ Hq), Hr. }
  assert (Hc : cells (step src env Next s) = cells s).
  { rewrite step_cells. simpl. by rewrite Hn. }
  destruct (cells_inv _ _ Hc) as (_ & _ & _ & Hi & Hp & _).
  split; [exact Hn|]. split; [exact Hi|]. split; [exact Hp|]. split; [exact Hc|].
  intros Hs.
  assert (He : step src env Next s = setAudio (audio_play (audio_seek 0 (audio s))) s).
  { unfold step. simpl. rewrite Hn. by apply commit_idle. }
  rewrite He. by repeat split.
Qed.

Lemma next_repeat_one_witness :
  let s := Sample.player Part000 [Sample.A; Sample.B] 0 (JSBool true) RepeatMode.One in
  currentTrackIndex (step Part000 Sample.env Next s) = Some 0%Z
  /\ isPlaying (step Part000 Sample.env Next s) = true.
Proof.
  intros s.
  destruct (next_repeat_one Part000 Sample.env s) as (_ & Hi & Hp & _);
    [vm_compute; congruence | reflexivity |].
  split; [rewrite Hi | rewrite Hp]; reflexivity.
Defined.

(** C6: on a valid index [prev()] moves to [(index - 1 + length) % length]
    (the remainder is the mathematical modulus there), so from 0 to
    [length - 1], and sets the playing flag, whatever the repeat mode and
    the shuffle flag. *)
Theorem prev_wraps (src : Source) (env : Env) (s : State) (i : Z) :
  currentTrackIndex s = Some i ->
  (0 <= i < len (currentQueue s))%Z ->
  currentTrackIndex (step src env Prev s)
    = Some ((i - 1 + len (currentQueue s)) `rem` len (currentQueue s))%Z
  /\ ((i - 1 + len (currentQueue s)) `rem` len (currentQueue s)
      = (i - 1 + len (currentQueue s)) `mod` len (currentQueue s))%Z
  /\ (i = 0%Z -> currentTrackIndex (step src env Prev s)
                 = Some (len (currentQueue s) - 1)%Z)
  /\ isPlaying (step src env Prev s) = true.
Proof.
  intros Hi Hv.
  destruct (cells_inv _ _ (step_cells src env Prev s)) as (_ & _ & _ & -> & -> & _).
  simpl. unfold handlePrev.
  replace (len (currentQueue s) =? 0)%Z with false by lia.
  rewrite Hi. simpl.
  assert (Hrem : ((i - 1 + len (currentQueue s)) `rem` len (currentQueue s)
                  = (i - 1 + len (currentQueue s)) `mod` len (currentQueue s))%Z)
    by (apply Z.rem_mod_nonneg; lia).
  repeat split; try done.
  intros ->. f_equal. rewrite Hrem.
  replace (0 - 1 + len (currentQueue s))%Z with (len (currentQueue s) - 1)%Z by lia.
  apply Z.mod_small. lia.
Qed.

Lemma prev_wraps_witness :
  currentTrackIndex
    (step AppTsx Sample.env Prev
       (Sample.player AppTsx [Sample.A; Sample.B; Sample.C] 0 (JSBool true) RepeatMode.None))
  = Some 2%Z.
Proof.
  destruct (prev_wraps AppTsx Sample.env
    (Sample.player AppTsx [Sample.A; Sample.B; Sample.C] 0 (JSBool true) RepeatMode.None)
    0%Z) as (_ & _ & H & _); [reflexivity | vm_compute; split; congruence |].
  exact (H eq_refl).
Defined.

(** One [next()] under repeat all without shuffle: the cells afterwards. *)
Lemma next_repeat_all_cells src env s i :
  repeat s = RepeatMode.All ->
  truthy (shuffle s) = false ->
  currentTrackIndex s = Some i ->
  (0 <= i < len (currentQueue s))%Z ->
  cells (step src env Next s)
  = cells (setIsPlaying true
             (setCurrentTrackIndex (Some ((i + 1) `mod` len (currentQueue s))%Z) s)).
Proof.
  intros Hr Hs Hi Hv. rewrite step_cells. simpl. unfold handleNext.
  replace (len (currentQueue s) =? 0)%Z with false by lia.
  rewrite Hr, Hs, Hi. simpl.
  destruct (Z.geb_spec (i + 1) (len (currentQueue s))) as [Hge|Hlt].
  - replace (i + 1)%Z with (len (currentQueue s)) by lia.
    by rewrite Z.mod_same by lia.
  - by rewrite Z.mod_small by lia.
Qed.

Lemma nexts_repeat_all src envs : forall s i,
  repeat s = RepeatMode.All ->
  truthy (shuffle s) = false ->
  currentTrackIndex s = Some i ->
  (0 <= i < len (currentQueue s))%Z ->
  currentTrackIndex (nexts src envs s)
  = Some ((i + len envs) `mod` len (currentQueue s))%Z.
Proof.
  induction envs as [|env envs IH]; intros s i Hr Hs Hi Hv.
  - change (nexts src [] s) with s. change (len (@nil Env)) with 0%Z.
    rewrite Z.add_0_r, Z.mod_small by lia. done.
  - pose proof (next_repeat_all_cells src env s i Hr Hs Hi Hv) as Hc.
    apply cells_inv in Hc as (_ & _ & Hq & Hi' & _ & Hs' & Hr' & _). cbn in Hq, Hi', Hs', Hr'.
    change (nexts src (env :: envs) s) with (nexts src envs (step src env Next s)).
    rewrite (IH (step src env Next s) ((i + 1) `mod` len (currentQueue s))%Z);
      rewrite ?Hq; try congruence.
    + f_equal. rewrite Zplus_mod_idemp_l. f_equal.
      unfold len. cbn [length]. lia.
    + apply Z.mod_pos_bound. lia.
Qed.

(** C4: under repeat all without shuffle, [next()] advances a valid index by
    one modulo the queue length; [queue.length] calls bring the index back
    to where it started, and no smaller positive number of calls does. *)
Theorem next_cycle (src : Source) (s : State) (i : Z) :
  repeat s = RepeatMode.All ->
  truthy (shuffle s) = false ->
  currentTrackIndex s = Some i ->
  (0 <= i < len (currentQueue s))%Z ->
  (forall env, currentTrackIndex (step src env Next s)
               = Some ((i + 1) `mod` len (currentQueue s))%Z)
  /\ (forall envs, length envs = length (currentQueue s) ->
        currentTrackIndex (nexts src envs s) = Some i)
  /\ (forall envs, 0 < length envs < length (currentQueue s) ->
        currentTrackIndex (nexts src envs s) <> Some i).
Proof.
  intros Hr Hs Hi Hv. split; [|split].
  - intros env.
    pose proof (next_repeat_all_cells src env s i Hr Hs Hi Hv) as Hc.
    by apply cells_inv in Hc as (_ & _ & _ & -> & _).
  - intros envs Hl. rewrite (nexts_repeat_all src envs s i Hr Hs Hi Hv).
    f_equal. unfold len in *. rewrite Hl.
    rewrite <- (Z.mul_1_l (Z.of_nat (length (currentQueue s)))) at 1.
    rewrite Z.mod_add by lia. apply Z.mod_small. lia.
  - intros envs Hl. rewrite (nexts_repeat_all src envs s i Hr Hs Hi Hv).
    intros [= Heq]. unfold len in *.
    set (n := Z.of_nat (length (currentQueue s))) in *.
    set (k := Z.of_nat (length envs)) in *.
    assert (Hk : (0 < k < n)%Z) by lia.
    destruct (Z_lt_ge_dec (i + k) n) as [Hlt|Hge].
    + rewrite Z.mod_small in Heq by lia. lia.
    + replace (i + k)%Z with ((i + k - n) + 1 * n)%Z in Heq by lia.
      rewrite Z.mod_add, Z.mod_small in Heq by lia. lia.
Qed.

Lemma next_cycle_witness :
  let s := Sample.player AppTsx [Sample.A; Sample.B; Sample.C] 0 (JSBool false)
             RepeatMode.All in
  currentTrackIndex (nexts AppTsx [Sample.env; Sample.env; Sample.env] s) = Some 0%Z
  /\ currentTrackIndex (nexts AppTsx [Sample.env; Sample.env] s) <> Some 0%Z.
Proof.
  intros s.
  destruct (next_cycle AppTsx s 0%Z) as (_ & Hback & Hnot);
    [reflexivity | reflexivity | reflexivity | vm_compute; split; congruence |].
  split; [apply Hback; reflexivity | apply Hnot; simpl; lia].
Defined.

(** ** Playlists *)

Lemma list_find_replaced (playlistId : string) (u : Playlist.t) (l : list Playlist.t) :
  Playlist.id u = playlistId ->
  forall k p,
  list_find (fun p => Playlist.id p = playlistId) l = Some (k, p) ->
  list_find (fun p => Playlist.id p = playlistId)
    ((fun p => if bool_decide (Playlist.id p = playlistId) then u else p) <$> l)
  = Some (k, u).
Proof.
  intros Hu. induction l as [|x l IH]; intros k p Hf; [discriminate|].
  cbn in Hf |- *. destruct (decide (Playlist.id x = playlistId)) as [Hx|Hx].
  - injection Hf as <- <-. rewrite bool_decide_eq_true_2 by done.
    by rewrite decide_True.
  - rewrite bool_decide_eq_false_2 by done. rewrite decide_False by done.
    destruct (list_find _ l) as [[k' p']|] eqn:Hl; [|discriminate].
    injection Hf as <- <-. by rewrite (IH k' p' eq_refl).
Qed.

Lemma add_present env playlistId trackId s k playlist :
  list_find (fun p => Playlist.id p = playlistId) (playlists s) = Some (k, playlist) ->
  trackId ∈ Playlist.trackIds playlist ->
  addTrackToPlaylist env playlistId trackId s = s.
Proof.
  intros Hf Hin. unfold addTrackToPlaylist. rewrite Hf.
  by rewrite bool_decide_eq_true_2.
Qed.

Lemma add_twice env playlistId trackId s :
  addTrackToPlaylist env playlistId trackId (addTrackToPlaylist env playlistId trackId s)
  = addTrackToPlaylist env playlistId trackId s.
Proof.
  remember (addTrackToPlaylist env playlistId trackId s) as s' eqn:Hs'.
  pose proof Hs' as Hdef. unfold addTrackToPlaylist in Hdef.
  destruct (list_find _ (playlists s)) as [[k p]|] eqn:Hf; [|by rewrite Hdef, Hs' at 1].
  destruct (bool_decide (trackId ∈ Playlist.trackIds p)) eqn:Hin;
    [by rewrite Hdef, Hs' at 1|].
  destruct (MusicDB.savePlaylist _ _ _) as [d [[]|e]] eqn:Hsave; simpl in Hdef;
    [|by rewrite Hdef, Hs' at 1].
  apply list_find_Some in Hf as Hp. destruct Hp as (_ & Hid & _).
  apply (add_present env playlistId trackId s' k (withTrack trackId p)).
  - rewrite Hdef. simpl.
    by apply (list_find_replaced playlistId (withTrack trackId p) _ Hid k p).
  - simpl. set_solver.
Qed.

Lemma add_NoDup env playlistId trackId s :
  playlistsNoDup s -> playlistsNoDup (addTrackToPlaylist env playlistId trackId s).
Proof.
  intros Hnd. unfold addTrackToPlaylist.
  destruct (list_find _ (playlists s)) as [[k p]|] eqn:Hf; [|done].
  destruct (bool_decide (trackId ∈ Playlist.trackIds p)) eqn:Hin; [done|].
  destruct (MusicDB.savePlaylist _ _ _) as [d [[]|e]]; simpl; [|done].
  unfold playlistsNoDup in *. simpl. apply Forall_fmap.
  apply list_find_Some in Hf as (Hk & _ & _).
  pose proof (Forall_lookup_1 _ _ _ _ Hnd Hk) as Hp. simpl in Hp.
  eapply Forall_impl; [exact Hnd|]. intros q Hq. simpl.
  destruct (bool_decide (Playlist.id q = playlistId)); [|done].
  simpl. apply NoDup_app. split; [done|]. split; [|apply NoDup_singleton].
  intros x Hx Hx'. apply list_elem_of_singleton in Hx' as ->.
  by apply bool_decide_eq_false_1 in Hin.
Qed.

(** C7: [addTrackToPlaylist] does nothing when the playlist already lists
    the track, so a second identical call changes nothing, and playlists
    that list no track twice keep doing so through any run of insertions. *)
Theorem add_track_idempotent (src : Source) (s : State) (playlistId trackId : string) :
  (forall env k playlist,
      list_find (fun p => Playlist.id p = playlistId) (playlists s) = Some (k, playlist) ->
      trackId ∈ Playlist.trackIds playlist ->
      addTrackToPlaylist env playlistId trackId s = s)
  /\ (forall env,
        addTrackToPlaylist env playlistId trackId
          (addTrackToPlaylist env playlistId trackId s)
        = addTrackToPlaylist env playlistId trackId s)
  /\ (forall evs,
        Forall isInsertion evs -> playlistsNoDup s -> playlistsNoDup (run src evs s)).
Proof.
  split; [|split].
  - intros env k playlist. apply add_present.
  - intros env. apply add_twice.
  - intros evs. revert s. induction evs as [|[env ev] evs IH]; intros s Hall Hnd; [done|].
    apply Forall_cons in Hall as [Hev Hall].
    change (run src ((env, ev) :: evs) s) with (run src evs (step src env ev s)).
    apply IH; [done|]. unfold playlistsNoDup.
    destruct (cells_inv _ _ (step_cells src env ev s)) as (_ & -> & _).
    destruct ev; try done. simpl. by apply add_NoDup.
Qed.

Lemma add_track_idempotent_witness :
  let p := Playlist.mk "p" "Mix" ["a"] 0 in
  let s := setPlaylists [p] (Sample.player Part000 [Sample.A; Sample.B] 0 (JSBool false)
                               RepeatMode.None) in
  addTrackToPlaylist Sample.env "p" "a" s = s
  /\ playlistsNoDup
       (run Part000 [(Sample.env, AddTrackToPlaylist "p" "b");
                     (Sample.env, AddTrackToPlaylist "p" "b")] s).
Proof.
  intros p s.
  destruct (add_track_idempotent Part000 s "p" "a") as (Hsame & _ & Hinv).
  split.
  - apply (Hsame Sample.env 0 p); [reflexivity | vm_compute; constructor].
  - apply Hinv.
    + repeat constructor.
    + repeat constructor. vm_compute. inversion 1.
Defined.

(** ** Deleting a track *)

(** C1 at a failing input of [src/App.tsx]: started on a store with tracks
    [a] and [b] and a playlist listing [a], with every storage request
    succeeding, deleting [a] takes it out of the tracks but leaves the
    playlist listing it. *)
Theorem removeTrack_AppTsx_keeps_playlist_entry :
  let s := Sample.listening AppTsx in
  let s' := step AppTsx Sample.env (RemoveTrack "a") s in
  Track.id <$> tracks s = ["a"; "b"]
  /\ Playlist.trackIds <$> playlists s = [["a"]]
  /\ Track.id <$> tracks s' = ["b"]
  /\ Playlist.trackIds <$> playlists s' = [["a"]].
Proof. vm_compute. repeat split; reflexivity. Qed.

(** The other file, on the same input, also clears the playlist. *)
Lemma removeTrack_Part000_clears_playlist_entry :
  let s' := step Part000 Sample.env (RemoveTrack "a") (Sample.listening Part000) in
  Track.id <$> tracks s' = ["b"]
  /\ Playlist.trackIds <$> playlists s' = [[]].
Proof. vm_compute. split; reflexivity. Qed.

(** C2 at a failing input, in both files: while [b] plays at position 1 of
    the queue [a; b], deleting [a] leaves the index at 1 over a queue of
    length 1. *)
Theorem removeTrack_breaks_indexValid (src : Source) :
  let s := Sample.listening src in
  let s' := step src Sample.env (RemoveTrack "a") s in
  indexValid s
  /\ currentTrackIndex s = Some 1%Z
  /\ Track.id <$> currentQueue s = ["a"; "b"]
  /\ currentTrackIndex s' = Some 1%Z
  /\ Track.id <$> currentQueue s' = ["b"]
  /\ ~ indexValid s'.
Proof.
  destruct src; vm_compute; (split; [split; congruence|]);
    do 4 (split; [reflexivity|]); intros [_ H]; discriminate H.
Qed.

(** *** What [removeTrack] does when the store answers every request *)

Lemma write_success name msg f self d :
  MusicDB.db self = Some d ->
  MusicDB.write name MusicDB.ReqSuccess msg f self
  = ({| MusicDB.db := Some (f d) |}, Resolved tt).
Proof. intros Hd. unfold MusicDB.write, MusicDB.getStore. by rewrite Hd. Qed.

Lemma write_open name o msg f self :
  is_Some (MusicDB.db self) -> is_Some (MusicDB.db (MusicDB.write name o msg f self).1).
Proof.
  intros [d Hd]. unfold MusicDB.write, MusicDB.getStore. rewrite Hd.
  destruct o; simpl; [done|]. by rewrite Hd.
Qed.

Lemma saveSetting_open o key value m :
  is_Some (MusicDB.db m) -> is_Some (MusicDB.db (MusicDB.saveSetting o key value m).1).
Proof. apply write_open. Qed.

Lemma commit_open src env s :
  is_Some (MusicDB.db (db s)) -> is_Some (MusicDB.db (db (commit src env s))).
Proof.
  intros H. unfold commit, settingsEffect, loadEffect, loadTrack, playEffect.
  destruct src; simpl;
    repeat match goal with
           | |- context [if ?b then _ else _] => destruct b
           | |- context [match ?x with _ => _ end] => destruct x
           end; simpl; repeat apply saveSetting_open; done.
Qed.

Lemma savePlaylists_success env ps : forall m,
  allSucceed env -> is_Some (MusicDB.db m) ->
  (savePlaylists env ps m).2 = Resolved tt.
Proof.
  induction ps as [|p ps IH]; intros m Hall [d Hd]; [done|].
  simpl. rewrite Hall. unfold MusicDB.savePlaylist.
  rewrite (write_success _ _ _ _ d Hd). by apply IH.
Qed.

Lemma removeTrack_cells src env id s :
  allSucceed env ->
  is_Some (MusicDB.db (db s)) ->
  cells (removeTrack src env id s)
  = (filter (fun t => Track.id t ≠ id) (tracks s),
     match src with
     | AppTsx => playlists s
     | Part000 => withoutTrack id <$> playlists s
     end,
     filter (fun t => Track.id t ≠ id) (currentQueue s),
     S (queueRef s),
     if isCurrent id s then None else currentTrackIndex s,
     if isCurrent id s then false else isPlaying s,
     shuffle s, repeat s, isReady s).
Proof.
  intros Hall [d Hd]. unfold removeTrack, MusicDB.deleteTrack.
  rewrite Hall, (write_success _ _ _ _ d Hd). cbn [await snd fst].
  destruct src.
  - by destruct (isCurrent id s).
  - destruct (playlists s) as [|p ps] eqn:Hps.
    + cbn [fmap list_fmap]. by destruct (isCurrent id s).
    + cbn [fmap list_fmap].
      set (s2 := setPlaylists _ _).
      rewrite savePlaylists_success; [|done|apply commit_open; by eexists].
      cbn [await].
      assert (Hc : cells (commit Part000 env s2)
                   = cells s2) by apply commit_cells.
      apply cells_inv in Hc as (Ht & Hp & Hq & Hi & Hpl & Hsh & Hr & Hrd & Hg).
      unfold cells. destruct (isCurrent id s); cbn;
        rewrite ?Ht, ?Hp, ?Hq, ?Hi, ?Hpl, ?Hsh, ?Hr, ?Hrd, ?Hg; subst s2; cbn;
        by rewrite ?Hps.
Qed.

(** X6: with the store answering, a deletion takes the track out of the
    tracks (and, in [part_000] only, out of every playlist), and when it was
    the current track the index is cleared and playback stops. *)
Lemma removeTrack_cascade src env id s :
  allSucceed env ->
  is_Some (MusicDB.db (db s)) ->
  let s' := step src env (RemoveTrack id) s in
  (forall t, t ∈ tracks s' -> Track.id t ≠ id)
  /\ (src = Part000 -> forall p, p ∈ playlists s' -> id ∉ Playlist.trackIds p)
  /\ (isCurrent id s = true -> isPlaying s' = false /\ currentTrackIndex s' = None).
Proof.
  intros Hall Hopen s'.
  pose proof (step_cells src env (RemoveTrack id) s) as Hc. fold s' in Hc.
  cbn [handle] in Hc. rewrite (removeTrack_cells src env id s Hall Hopen) in Hc.
  apply cells_fields in Hc as (Ht & Hp & _ & _ & Hi & Hpl & _).
  split; [|split].
  - intros t. rewrite Ht. intros Hin. by apply list_elem_of_filter in Hin as [? _].
  - intros -> p. rewrite Hp. intros Hin.
    apply list_elem_of_fmap in Hin as (q & -> & _). simpl.
    intros Hin. by apply list_elem_of_filter in Hin as [? _].
  - intros Hcur. rewrite Hcur in Hi, Hpl. done.
Qed.

(** ** The index invariant under the other operations *)

Lemma indexValid_cells s s' : cells s' = cells s -> indexValid s -> indexValid s'.
Proof.
  intros H. apply cells_inv in H as (_ & _ & Hq & Hi & _).
  unfold indexValid. by rewrite Hq, Hi.
Qed.

Lemma array_get_Some {A : Type} (l : list A) (i : Z) (x : A) :
  array_get l i = Some x -> (0 <= i < len l)%Z.
Proof.
  unfold array_get, len. destruct (Z.leb_spec 0 i) as [Hi|]; [|done].
  intros Hl. apply lookup_lt_Some in Hl. lia.
Qed.

(** [Math.floor(Math.random() * n)] is a position of a queue of length [n]. *)
Lemma random_index (r : Q) (n : Z) :
  (0 <= r)%Q -> (r < 1)%Q -> (0 < n)%Z -> (0 <= Qfloor (r * inject_Z n) < n)%Z.
Proof.
  intros H0 H1 Hn. split.
  - change 0%Z with (Qfloor 0). apply Qfloor_resp_le.
    apply Qmult_le_0_compat; [done|]. change 0%Q with (inject_Z 0).
    rewrite <- Zle_Qle. lia.
  - apply Z.lt_nge. intros Hge.
    assert (Hle : (inject_Z n <= r * inject_Z n)%Q).
    { eapply Qle_trans; [|apply Qfloor_le]. rewrite <- Zle_Qle. lia. }
    assert (Hlt : (r * inject_Z n < 1 * inject_Z n)%Q).
    { apply Qmult_lt_compat_r; [|done]. change 0%Q with (inject_Z 0).
      rewrite <- Zlt_Qlt. lia. }
    rewrite Qmult_1_l in Hlt. apply (Qlt_irrefl (inject_Z n)).
    eapply Qle_lt_trans; [exact Hle|exact Hlt].
Qed.

Lemma handleNext_valid env s :
  (0 <= random env)%Q -> (random env < 1)%Q ->
  indexValid s -> indexValid (handleNext env s).
Proof.
  intros H0 H1 Hv. unfold handleNext.
  destruct (Z.eqb_spec (len (currentQueue s)) 0) as [|Hne]; [done|].
  assert (Hpos : (0 < len (currentQueue s))%Z) by (unfold len in *; lia).
  destruct (strict_eq (repeat s) RepeatMode.One); [done|].
  destruct (truthy (shuffle s)).
  - unfold indexValid. cbn. by apply random_index.
  - unfold indexValid in Hv.
    destruct (currentTrackIndex s) as [i|] eqn:Hi.
    + destruct (Z.geb_spec (i + 1) (len (currentQueue s))).
      * destruct (strict_eq (repeat s) RepeatMode.All); unfold indexValid; cbn;
          rewrite ?Hi; lia.
      * unfold indexValid. cbn. lia.
    + destruct (Z.geb_spec 0 (len (currentQueue s))); [lia|].
      unfold indexValid. cbn. lia.
Qed.

Lemma handlePrev_valid s : indexValid s -> indexValid (handlePrev s).
Proof.
  intros Hv. unfold handlePrev.
  destruct (Z.eqb_spec (len (currentQueue s)) 0) as [|Hne]; [done|].
  assert (Hpos : (0 < len (currentQueue s))%Z) by (unfold len in *; lia).
  unfold indexValid in *. cbn.
  destruct (currentTrackIndex s) as [i|]; [|lia].
  apply Z.rem_bound_pos; lia.
Qed.

Lemma rowClick_valid src l row s : indexValid s -> indexValid (rowClick src l row s).
Proof.
  intros Hv. unfold rowClick. destruct (l !! row) as [track|] eqn:Hrow; [|done].
  pose proof (lookup_lt_Some _ _ _ Hrow) as Hlt.
  destruct src; unfold indexValid, len; cbn; [lia|].
  unfold findIndex.
  destruct (list_find _ l) as [[i t]|] eqn:Hf.
  - apply list_find_Some in Hf as (Hi & _). apply lookup_lt_Some in Hi. lia.
  - apply list_find_None in Hf. rewrite Forall_lookup in Hf.
    by destruct (Hf row track Hrow).
Qed.

Lemma playAll_valid playlistId s : indexValid s -> indexValid (playAll playlistId s).
Proof.
  intros Hv. unfold playAll. destruct (activePlaylistTracks playlistId s); [done|].
  unfold indexValid, len. cbn. lia.
Qed.

Lemma addTrackToPlaylist_valid env playlistId trackId s :
  indexValid s -> indexValid (addTrackToPlaylist env playlistId trackId s).
Proof.
  intros Hv. unfold addTrackToPlaylist.
  destruct (list_find _ (playlists s)) as [[k p]|]; [|done].
  destruct (bool_decide _); [done|].
  by destruct (MusicDB.savePlaylist _ _ _) as [d [[]|e]].
Qed.

(** The startup restore, from a state in which nothing is loaded. *)
Lemma init_valid src env s :
  currentTrackIndex s = None -> indexValid (init src env s).
Proof.
  intros Hnone. assert (Hv : indexValid s) by (unfold indexValid; by rewrite Hnone).
  unfold init.
  destruct (MusicDB.init _ _ _) as [d [[]|e]]; cbn [await fst snd]; [|done].
  destruct (MusicDB.getAllTracks _ _) as [storedTracks|e]; cbn [await]; [|done].
  destruct (MusicDB.getPlaylists _ _) as [storedPlaylists|e]; cbn [await]; [|done].
  destruct (MusicDB.getSetting _ "shuffle" _) as [lastShuffle|e]; cbn [await]; [|done].
  destruct (MusicDB.getSetting _ "repeat" _) as [lastRepeat|e]; cbn [await]; [|done].
  set (s1 := commit src env _).
  assert (Hq : currentQueue s1 = storedTracks /\ currentTrackIndex s1 = None).
  { destruct (cells_inv _ _ (commit_cells src env
      (setCurrentQueue storedTracks
         (setPlaylists storedPlaylists (setTracks storedTracks (setDb d s))))))
      as (_ & _ & Hq & Hi & _). fold s1 in Hq, Hi. by rewrite Hq, Hi. }
  destruct Hq as [Hq Hi].
  assert (Hv1 : indexValid s1) by (unfold indexValid; by rewrite Hi).
  destruct (MusicDB.getSetting _ "lastTrackIndex" _) as [lastIndex|e]; cbn [await];
    [|done].
  set (s2 := match lastIndex with JSNumber _ => _ | _ => s1 end).
  assert (Hv2 : indexValid s2).
  { subst s2. destruct lastIndex; try done.
    destruct (array_get storedTracks n) eqn:Hget; [|done].
    apply array_get_Some in Hget. unfold indexValid. cbn. by rewrite Hq. }
  clearbody s2.
  destruct (strict_eq lastShuffle JSNull), (strict_eq lastRepeat JSNull); exact Hv2.
Qed.

(** X5: every event other than a deletion keeps a valid index valid
    (next, under shuffle too, prev, row clicks, play-all, the toggles, the
    audio events and, from a state with nothing loaded, the startup
    restore), and so does the deletion of the current track when the store
    answers. *)
Lemma indexValid_step src env ev s :
  (0 <= random env)%Q -> (random env < 1)%Q ->
  match ev with
  | Mount => currentTrackIndex s = None
  | RemoveTrack id => isCurrent id s = true /\ allSucceed env
  | _ => True
  end ->
  indexValid s -> indexValid (step src env ev s).
Proof.
  intros H0 H1 Hev Hv. apply (indexValid_cells _ _ (step_cells src env ev s)).
  destruct ev; cbn [handle].
  - apply init_valid.
    destruct (cells_inv _ _ (commit_cells src env s)) as (_ & _ & _ & -> & _). done.
  - by apply handleNext_valid.
  - by apply handlePrev_valid.
  - done.
  - done.
  - done.
  - by apply rowClick_valid.
  - by apply playAll_valid.
  - destruct Hev as [Hcur Hall].
    destruct (MusicDB.db (db s)) as [d|] eqn:Hd.
    + pose proof (removeTrack_cells src env id s Hall (ltac:(by eexists))) as Hc.
      apply cells_fields in Hc as (_ & _ & _ & _ & Hi & _).
      unfold indexValid. by rewrite Hi, Hcur.
    + unfold removeTrack, MusicDB.deleteTrack. by rewrite (write_closed _ _ _ _ _ Hd).
  - by apply addTrackToPlaylist_valid.
  - by apply handleNext_valid.
  - done.
  - done.
  - by destruct src, o.
Qed.

(** ** Metadata extraction *)

Lemma append_cons (c : ascii) (x z : string) : String c x +:+ z = String c (x +:+ z).
Proof. reflexivity. Qed.

Lemma allExt_dot (x y : string) : allExt (x +:+ String "." y) = false.
Proof.
  induction x as [|c x IH]; [reflexivity|].
  rewrite append_cons. cbn [allExt]. rewrite IH. apply andb_false_r.
Qed.

Lemma matchesAt_before_dot (c : ascii) (x y : string) :
  matchesAt (String c (x +:+ String "." y)) = false.
Proof.
  destruct x as [|c' x].
  - change (EmptyString +:+ String "." y) with (String "." y). cbn.
    rewrite andb_false_r. reflexivity.
  - rewrite append_cons. cbn [matchesAt].
    rewrite allExt_dot, !andb_false_r. reflexivity.
Qed.

(** X7: [stripExt] cuts the extension off: the last dot and the non-empty
    run of characters other than [.] and [/] after it. *)
Lemma stripExt_extension (base ext : string) :
  ext <> EmptyString -> allExt ext = true ->
  stripExt (base +:+ String "." ext) = base.
Proof.
  intros Hne Hext. induction base as [|c base IH].
  - change (EmptyString +:+ String "." ext) with (String "." ext).
    destruct ext as [|c' ext]; [done|]. cbn in Hext |- *. by rewrite Hext.
  - rewrite append_cons.
    change (stripExt (String c (base +:+ String "." ext)))
      with (if matchesAt (String c (base +:+ String "." ext)) then EmptyString
            else String c (stripExt (base +:+ String "." ext))).
    by rewrite matchesAt_before_dot, IH.
Qed.

Example stripExt_samples :
  stripExt "song.mp3" = "song"
  /\ stripExt "take.one.flac" = "take.one"
  /\ stripExt "noext" = "noext"
  /\ stripExt "trailing." = "trailing."
  /\ stripExt "dir.d/file" = "dir.d/file"
  /\ stripExt ".hidden" = "".
Proof. repeat split; reflexivity. Qed.

Lemma str_or_same (x : string) : str_or (Some x) x = x.
Proof. unfold str_or. by destruct (String.eqb x ""). Qed.

(** C8, as stated, fails on [src/App.tsx]: when the tag reader reports an
    error the promise resolves with a tuple that carries a title only, not
    the sentinel artist. *)
Lemma getMetadata_AppTsx_fallback_without_artist :
  let file := {| File.name := "song.mp3"; File.blob := Sample.mp3 |} in
  getMetadata (fun binary => binary) AppTsx ReadError file
  = Resolved {| m_title := Some "song"; m_artist := None;
                m_album := None; m_coverUrl := None |}
  /\ getMetadata (fun binary => binary) AppTsx ReadError file
     <> Resolved {| m_title := Some "song"; m_artist := Some UNKNOWN_ARTIST;
                    m_album := None; m_coverUrl := None |}.
Proof. split; [reflexivity|]. vm_compute. discriminate. Qed.

(** C8, amended: [getMetadata] always resolves.  When the tag reader is
    missing or reports an error, it resolves with a tuple whose title is the
    file name without its extension and which has no album and no cover;
    the sentinel artist is in the tuple in [part_000], and in [src/App.tsx],
    where the tuple has no artist, it is filled in when the imported track
    is built, so the track has the sentinel artist in both files. *)
Theorem getMetadata_fallback (btoa : string -> string) (src : Source)
    (reader : TagReader) (file : File.t) :
  (exists m, getMetadata btoa src reader file = Resolved m)
  /\ (reader = Unavailable \/ reader = ReadError ->
      exists m,
        getMetadata btoa src reader file = Resolved m
        /\ m_title m = Some (stripExt (File.name file))
        /\ m_album m = None
        /\ m_coverUrl m = None
        /\ m_artist m = match src with
                        | Part000 => Some UNKNOWN_ARTIST
                        | AppTsx => None
                        end
        /\ forall id now duration,
             let track := importedTrack src id now duration file m in
             Track.title track = stripExt (File.name file)
             /\ Track.artist track = UNKNOWN_ARTIST
             /\ Track.album track = None
             /\ Track.coverUrl track = None).
Proof.
  split.
  - destruct reader; eexists; reflexivity.
  - intros Hr. exists (fallback src file).
    split; [by destruct Hr as [-> | ->]|].
    destruct src; (do 4 (split; [reflexivity|])); intros id now duration;
      unfold importedTrack, fallback;
      cbn [Track.title Track.artist Track.album Track.coverUrl
           m_title m_artist m_album m_coverUrl];
      rewrite str_or_same; repeat split; reflexivity.
Qed.

Lemma getMetadata_fallback_witness :
  let file := {| File.name := "take.one.flac"; File.blob := Sample.mp3 |} in
  exists m,
    getMetadata (fun binary => binary) Part000 Unavailable file = Resolved m
    /\ m_title m = Some "take.one"
    /\ m_artist m = Some "Desconhecido".
Proof.
  intros file.
  destruct (getMetadata_fallback (fun binary => binary) Part000 Unavailable file)
    as [_ H].
  destruct (H (or_introl eq_refl)) as (m & Hm & Ht & _ & _ & Ha & _).
  exists m. split; [exact Hm|]. split; [rewrite Ht; reflexivity | exact Ha].
Defined.

(** * Further properties of the store *)

Lemma compare_trans (a b c : string) :
  String.compare a b <> Gt -> String.compare b c <> Gt -> String.compare a c <> Gt.
Proof.
  revert b c. induction a as [|c1 a IH]; intros [|c2 b] [|c3 c]; cbn; try done.
  unfold Ascii.compare.
  destruct (N.compare_spec (N_of_ascii c1) (N_of_ascii c2)),
           (N.compare_spec (N_of_ascii c2) (N_of_ascii c3)),
           (N.compare_spec (N_of_ascii c1) (N_of_ascii c3));
    try done; try lia.
  apply IH.
Qed.

Lemma leb_trans (a b c : string) :
  Is_true (String.leb a b) -> Is_true (String.leb b c) -> Is_true (String.leb a c).
Proof.
  unfold String.leb. intros Hab Hbc.
  pose proof (compare_trans a b c) as H.
  destruct (String.compare a b), (String.compare b c), (String.compare a c);
    try done; exfalso; by apply H.
Qed.

Lemma key_le_trans {V : Type} : Transitive (@MusicDB.key_le V).
Proof. intros x y z. apply leb_trans. Qed.

Lemma key_le_total {V : Type} : Total (@MusicDB.key_le V).
Proof.
  intros x y. unfold MusicDB.key_le.
  destruct (String.leb_total x.1 y.1) as [H|H]; [left|right]; by rewrite H.
Qed.

Lemma StronglySorted_on {A : Type} (P : A -> Prop) (R R' : relation A) (l : list A) :
  (forall x y, P x -> P y -> R x y -> R' x y) ->
  Forall P l -> StronglySorted R l -> StronglySorted R' l.
Proof.
  intros HR HP Hs. induction Hs as [|x l Hs IH Hx]; [constructor|].
  apply Forall_cons in HP as [Px HP]. constructor; [by apply IH|].
  rewrite Forall_forall in *. intros y Hy. apply HR; auto.
Qed.

(** [getAll] lists a store keyed by id in ascending order of id. *)
Lemma getAll_ascending (d : MusicDB.IDBDatabase) :
  keyed d -> ascendingById (MusicDB.getAll (MusicDB.tracks_store d)).
Proof.
  intros [Hk _]. unfold ascendingById, MusicDB.getAll.
  apply (StronglySorted_fmap snd
           (fun x y => Is_true (String.leb (Track.id x.2) (Track.id y.2)))); [done|].
  apply (StronglySorted_on (fun x => Track.id x.2 = x.1) MusicDB.key_le).
  - intros x y Hx Hy. unfold MusicDB.key_le. by rewrite Hx, Hy.
  - rewrite Forall_forall. intros [k t] Hin.
    rewrite merge_sort_Permutation in Hin. apply elem_of_map_to_list in Hin.
    by apply Hk.
  - apply (@StronglySorted_merge_sort _ MusicDB.key_le _ key_le_trans key_le_total).
Qed.

Lemma getAll_elem {V : Type} (m : gmap string V) (x : V) :
  x ∈ MusicDB.getAll m <-> exists k, m !! k = Some x.
Proof.
  unfold MusicDB.getAll. rewrite merge_sort_Permutation.
  rewrite list_elem_of_fmap. split.
  - intros ([k y] & -> & Hin). exists k. by apply elem_of_map_to_list.
  - intros [k Hk]. exists (k, x). split; [done|]. by apply elem_of_map_to_list.
Qed.

(** X1: a track saved with success is among the tracks read back, it is the
    only record with its id, and the records with other ids are those that
    were there before; the store stays keyed by id. *)
Theorem saveTrack_then_getAllTracks (self : MusicDB.t) (d : MusicDB.IDBDatabase)
    (track : Track.t) :
  MusicDB.db self = Some d ->
  keyed d ->
  exists d' l l0,
    MusicDB.saveTrack MusicDB.ReqSuccess track self
      = ({| MusicDB.db := Some d' |}, Resolved tt)
    /\ MusicDB.getAllTracks MusicDB.ReqSuccess {| MusicDB.db := Some d' |} = Resolved l
    /\ MusicDB.getAllTracks MusicDB.ReqSuccess self = Resolved l0
    /\ keyed d'
    /\ track ∈ l
    /\ (forall t, t ∈ l -> Track.id t = Track.id track -> t = track)
    /\ (forall t, Track.id t <> Track.id track -> (t ∈ l <-> t ∈ l0)).
Proof.
  intros Hd [Hkt Hkp].
  exists (MusicDB.with_tracks d (<[Track.id track := track]> (MusicDB.tracks_store d))).
  eexists. eexists.
  split; [unfold MusicDB.saveTrack; by rewrite (write_success _ _ _ _ d Hd)|].
  split; [reflexivity|].
  split; [unfold MusicDB.getAllTracks, MusicDB.getStore; by rewrite Hd|].
  cbn [MusicDB.with_tracks MusicDB.tracks_store].
  assert (Hk' : forall k t, <[Track.id track := track]> (MusicDB.tracks_store d) !! k
                            = Some t -> Track.id t = k).
  { intros k t. rewrite lookup_insert. case_decide as Hk.
    - intros [= <-]. done.
    - apply Hkt. }
  split; [by split|]. split; [|split].
  - apply getAll_elem. exists (Track.id track). by rewrite lookup_insert_eq.
  - intros t Hin Hid. apply getAll_elem in Hin as [k Hk].
    pose proof (Hk' k t Hk) as Hkey. rewrite <- Hkey, Hid, lookup_insert_eq in Hk.
    by injection Hk.
  - intros t Hid. rewrite !getAll_elem. split; intros [k Hk]; exists k.
    + rewrite lookup_insert_ne in Hk; [done|]. intros <-.
      rewrite lookup_insert_eq in Hk. injection Hk as <-. done.
    + rewrite lookup_insert_ne; [done|]. intros <-. by apply Hkt in Hk.
Qed.

Lemma saveTrack_then_getAllTracks_witness :
  exists l,
    MusicDB.getAllTracks MusicDB.ReqSuccess
      (MusicDB.saveTrack MusicDB.ReqSuccess Sample.A
         {| MusicDB.db := Some MusicDB.empty_database |}).1 = Resolved l
    /\ Sample.A ∈ l.
Proof.
  destruct (saveTrack_then_getAllTracks {| MusicDB.db := Some MusicDB.empty_database |}
              MusicDB.empty_database Sample.A eq_refl)
    as (d' & l & l0 & Hs & Hg & _ & _ & Hin & _).
  - split; intros k x Hk; vm_compute in Hk; discriminate Hk.
  - exists l. rewrite Hs. split; [exact Hg | exact Hin].
Defined.

(** X2: a setting saved with success reads back as saved, the other keys
    read as before, and a key never stored reads as [undefined]. *)
Theorem saveSetting_then_getSetting (self : MusicDB.t) (d : MusicDB.IDBDatabase)
    (key other : string) (value : JSValue) :
  MusicDB.db self = Some d ->
  let self' := (MusicDB.saveSetting MusicDB.ReqSuccess key value self).1 in
  MusicDB.getSetting MusicDB.ReqSuccess key self' = Resolved value
  /\ (other <> key ->
      MusicDB.getSetting MusicDB.ReqSuccess other self'
      = MusicDB.getSetting MusicDB.ReqSuccess other self)
  /\ (MusicDB.settings_store d !! other = None ->
      MusicDB.getSetting MusicDB.ReqSuccess other self = Resolved JSUndefined)
  /\ MusicDB.getAllTracks MusicDB.ReqSuccess self'
     = MusicDB.getAllTracks MusicDB.ReqSuccess self
  /\ MusicDB.getPlaylists MusicDB.ReqSuccess self'
     = MusicDB.getPlaylists MusicDB.ReqSuccess self.
Proof.
  intros Hd self'. subst self'. unfold MusicDB.saveSetting.
  rewrite (write_success _ _ _ _ d Hd).
  unfold MusicDB.getSetting, MusicDB.getAllTracks, MusicDB.getPlaylists, MusicDB.getStore.
  rewrite Hd. cbn. rewrite lookup_insert_eq. split; [done|]. split; [|split].
  - intros Hne. by rewrite lookup_insert_ne.
  - by intros ->.
  - done.
Qed.

Lemma saveSetting_then_getSetting_witness :
  MusicDB.getSetting MusicDB.ReqSuccess "repeat"
    (MusicDB.saveSetting MusicDB.ReqSuccess "repeat" RepeatMode.All
       {| MusicDB.db := Some MusicDB.empty_database |}).1
  = Resolved RepeatMode.All.
Proof.
  apply (saveSetting_then_getSetting {| MusicDB.db := Some MusicDB.empty_database |}
           MusicDB.empty_database "repeat" "shuffle" RepeatMode.All eq_refl).
Defined.

(** X3: before [init] has opened the database every other operation,
    [getSetting] included, rejects with the error thrown by [getStore], and
    the handle stays closed. *)
Theorem closed_database_rejects (self : MusicDB.t) (o : MusicDB.ReqOutcome)
    (track : Track.t) (playlist : Playlist.t) (id key : string) (value : JSValue) :
  MusicDB.db self = None ->
  let e := Error "DB not initialized" in
  MusicDB.saveTrack o track self = (self, Rejected e)
  /\ MusicDB.getAllTracks o self = Rejected e
  /\ MusicDB.deleteTrack o id self = (self, Rejected e)
  /\ MusicDB.savePlaylist o playlist self = (self, Rejected e)
  /\ MusicDB.getPlaylists o self = Rejected e
  /\ MusicDB.deletePlaylist o id self = (self, Rejected e)
  /\ MusicDB.saveSetting o key value self = (self, Rejected e)
  /\ MusicDB.getSetting o key self = Rejected e.
Proof.
  intros Hd e.
  unfold MusicDB.saveTrack, MusicDB.deleteTrack, MusicDB.savePlaylist,
    MusicDB.deletePlaylist, MusicDB.saveSetting.
  rewrite !(write_closed _ _ _ _ _ Hd).
  unfold MusicDB.getAllTracks, MusicDB.getPlaylists, MusicDB.getSetting,
    MusicDB.getStore.
  rewrite Hd. by repeat split.
Qed.

Lemma closed_database_rejects_witness :
  MusicDB.getSetting MusicDB.ReqSuccess "shuffle" MusicDB.musicDB
  = Rejected (Error "DB not initialized").
Proof.
  apply (closed_database_rejects MusicDB.musicDB MusicDB.ReqSuccess Sample.A
           Sample.mix "a" "shuffle" JSNull eq_refl).
Defined.

(** X4: after a successful [deleteTrack] no record with that id is read
    back, the records with other ids are those that were there before, and
    deleting an id that is not stored changes nothing that is read back. *)
Theorem deleteTrack_then_getAllTracks (self : MusicDB.t) (d : MusicDB.IDBDatabase)
    (id : string) :
  MusicDB.db self = Some d ->
  keyed d ->
  exists d' l l0,
    MusicDB.deleteTrack MusicDB.ReqSuccess id self
      = ({| MusicDB.db := Some d' |}, Resolved tt)
    /\ MusicDB.getAllTracks MusicDB.ReqSuccess {| MusicDB.db := Some d' |} = Resolved l
    /\ MusicDB.getAllTracks MusicDB.ReqSuccess self = Resolved l0
    /\ keyed d'
    /\ (forall t, t ∈ l -> Track.id t <> id)
    /\ (forall t, Track.id t <> id -> (t ∈ l <-> t ∈ l0))
    /\ (MusicDB.tracks_store d !! id = None -> l = l0).
Proof.
  intros Hd [Hkt Hkp].
  exists (MusicDB.with_tracks d (delete id (MusicDB.tracks_store d))).
  eexists. eexists.
  split; [unfold MusicDB.deleteTrack; by rewrite (write_success _ _ _ _ d Hd)|].
  split; [reflexivity|].
  split; [unfold MusicDB.getAllTracks, MusicDB.getStore; by rewrite Hd|].
  unfold keyed.
  cbn [MusicDB.with_tracks MusicDB.tracks_store MusicDB.playlists_store].
  split; [|split; [|split]].
  - split; [|done]. intros k t Hk. apply lookup_delete_Some in Hk as [_ Hk]. by apply Hkt.
  - intros t Hin. apply getAll_elem in Hin as [k Hk].
    apply lookup_delete_Some in Hk as [Hne Hk]. apply Hkt in Hk. congruence.
  - intros t Hid. rewrite !getAll_elem. split; intros [k Hk]; exists k.
    + by apply lookup_delete_Some in Hk as [_ Hk].
    + apply lookup_delete_Some. split; [|done]. intros <-. by apply Hkt in Hk.
  - intros Hnone. by rewrite delete_id.
Qed.

Lemma deleteTrack_then_getAllTracks_witness :
  let self := {| MusicDB.db := Some Fixture.database |} in
  exists l0 l,
    MusicDB.getAllTracks MusicDB.ReqSuccess self = Resolved l0
    /\ Sample.A ∈ l0
    /\ MusicDB.getAllTracks MusicDB.ReqSuccess
         (MusicDB.deleteTrack MusicDB.ReqSuccess "a" self).1 = Resolved l
    /\ (Sample.A ∉ l)
    /\ Sample.B ∈ l.
Proof.
  intros self.
  destruct (deleteTrack_then_getAllTracks self Fixture.database "a" eq_refl)
    as (d' & l & l0 & Hs & Hg & Hg0 & _ & Hno & Hsame & _).
  - split.
    + apply (bool_decide_unpack
               (map_Forall (fun k t => Track.id t = k)
                  (MusicDB.tracks_store Fixture.database))).
      vm_compute. exact I.
    + apply (bool_decide_unpack
               (map_Forall (fun k p => Playlist.id p = k)
                  (MusicDB.playlists_store Fixture.database))).
      vm_compute. exact I.
  - exists l0, l. rewrite Hs.
    assert (Hl0 : l0 = [Sample.A; Sample.B; Sample.C]).
    { vm_compute in Hg0. injection Hg0 as <-. reflexivity. }
    split; [exact Hg0|]. split; [rewrite Hl0; apply list_elem_of_here|].
    split; [exact Hg|]. split.
    + intros Hin. by apply (Hno _ Hin).
    + apply (Hsame Sample.B); [discriminate|].
      rewrite Hl0. apply list_elem_of_further, list_elem_of_here.
Defined.

(** * Further properties of the controller *)

(** [next()] keeps a valid index valid. *)
Lemma indexValid_step_witness :
  indexValid (step AppTsx Sample.env Next (Sample.listening AppTsx)).
Proof.
  apply (indexValid_step AppTsx Sample.env Next (Sample.listening AppTsx)).
  - vm_compute. discriminate.
  - reflexivity.
  - exact I.
  - vm_compute. split; congruence.
Defined.

(** In [part_000], deleting the playing track [b] clears the index and
    stops playback. *)
Lemma removeTrack_cascade_witness :
  let s' := step Part000 Sample.env (RemoveTrack "b") (Sample.listening Part000) in
  isPlaying s' = false /\ currentTrackIndex s' = None.
Proof.
  destruct (removeTrack_cascade Part000 Sample.env "b" (Sample.listening Part000))
    as (_ & _ & H).
  - intros q. reflexivity.
  - vm_compute. eexists. reflexivity.
  - apply H. reflexivity.
Defined.

(** The extension of [song.mp3]. *)
Lemma stripExt_extension_witness : stripExt ("song" +:+ String "." "mp3") = "song".
Proof.
  apply (stripExt_extension "song" "mp3"); [discriminate | reflexivity].
Defined.

Lemma matchesAt_no_dot (c : ascii) (r : string) :
  c <> "."%char -> matchesAt (String c r) = false.
Proof.
  intros Hc. destruct r as [|c' r]; [reflexivity|]. cbn.
  destruct (Ascii.eqb_spec c "."); [done|reflexivity].
Qed.

(** X8: a file name without any dot is its own title. *)
Theorem stripExt_no_dot (name : string) :
  ~ In "."%char (list_ascii_of_string name) -> stripExt name = name.
Proof.
  induction name as [|c name IH]; [reflexivity|]. intros Hnot.
  change (stripExt (String c name))
    with (if matchesAt (String c name) then EmptyString else String c (stripExt name)).
  rewrite matchesAt_no_dot by (intros ->; apply Hnot; by left).
  rewrite IH; [done|]. intros Hin. apply Hnot. by right.
Qed.

Lemma stripExt_no_dot_witness : stripExt "README" = "README".
Proof.
  apply (stripExt_no_dot "README"). vm_compute.
  intros H; repeat (destruct H as [H|H]; [discriminate H|]); exact H.
Defined.

(** ** Startup *)

Import Handlers.

Lemma playEffect_db s : db (playEffect s) = db s.
Proof. unfold playEffect. by repeat case_match. Qed.

Lemma loadEffect_unloaded src env s :
  currentTrackIndex s = None -> loadEffect src env s = s.
Proof. intros Hi. unfold loadEffect. rewrite Hi. by repeat case_match. Qed.

Lemma settingsEffect_notReady src env s :
  isReady s = false -> settingsEffect src env s = s.
Proof. intros Hr. unfold settingsEffect. rewrite Hr. by repeat case_match. Qed.

Lemma commit_db_idle src env s :
  currentTrackIndex s = None -> isReady s = false -> db (commit src env s) = db s.
Proof.
  intros Hi Hr. unfold commit. cbn [db setRendered].
  destruct (cells_inv _ _ (playEffect_cells s)) as (_ & _ & _ & Hi' & _ & _ & _ & Hr' & _).
  destruct src.
  - rewrite (loadEffect_unloaded _ _ _ Hi). apply playEffect_db.
  - rewrite loadEffect_unloaded by congruence.
    rewrite settingsEffect_notReady by congruence. apply playEffect_db.
Qed.

(** The cells after the component is started on a store that answers. *)
Lemma mount_cells src env :
  allSucceed env ->
  let d0 := MusicDB.upgrade (disk env) in
  let storedTracks := MusicDB.getAll (MusicDB.tracks_store d0) in
  let setting key := default JSUndefined (MusicDB.settings_store d0 !! key) in
  cells (step src env Mount initial)
  = (storedTracks, MusicDB.getAll (MusicDB.playlists_store d0), storedTracks, 1,
     match setting "lastTrackIndex" with
     | JSNumber n => match array_get storedTracks n with
                     | Some _ => Some n
                     | None => None
                     end
     | _ => None
     end,
     false,
     if strict_eq (setting "shuffle") JSNull then JSBool false else setting "shuffle",
     if strict_eq (setting "repeat") JSNull then RepeatMode.None else setting "repeat",
     true).
Proof.
  intros Hall d0 storedTracks setting.
  rewrite step_cells. cbn [handle]. unfold init.
  rewrite !Hall.
  assert (Hdb0 : db (commit src env initial) = MusicDB.musicDB)
    by (by rewrite commit_db_idle).
  cbn [MusicDB.init fst snd await].
  set (s0 := setDb _ (commit src env initial)).
  assert (Hs0 : db s0 = {| MusicDB.db := Some d0 |}) by reflexivity.
  rewrite Hs0.
  unfold MusicDB.getAllTracks, MusicDB.getPlaylists, MusicDB.getSetting, MusicDB.getStore.
  cbn [MusicDB.db await].
  fold d0. fold storedTracks.
  set (s1 := setCurrentQueue _ _).
  assert (Hc0 : cells (commit src env initial) = cells initial) by apply commit_cells.
  apply cells_inv in Hc0 as (Ht0 & Hp0 & Hq0 & Hi0 & Hpl0 & Hsh0 & Hrp0 & Hrd0 & Hg0).
  assert (Hcell1 : cells s1
    = (storedTracks, MusicDB.getAll (MusicDB.playlists_store d0), storedTracks, 1,
       None, false, JSBool false, RepeatMode.None, false)).
  { subst s1 s0. unfold cells. cbn. by rewrite Hg0, Hi0, Hpl0, Hsh0, Hrp0, Hrd0. }
  assert (Hc1 : cells (commit src env s1) = cells s1) by apply commit_cells.
  rewrite Hcell1 in Hc1.
  assert (Hdb1 : db (commit src env s1) = {| MusicDB.db := Some d0 |}).
  { apply cells_fields in Hcell1 as (_ & _ & _ & _ & Hi1 & _ & _ & _ & Hr1).
    by rewrite commit_db_idle. }
  rewrite Hdb1. cbn [MusicDB.db await].
  change (default JSUndefined (MusicDB.settings_store d0 !! "lastTrackIndex"))
    with (setting "lastTrackIndex").
  change (default JSUndefined (MusicDB.settings_store d0 !! "shuffle"))
    with (setting "shuffle").
  change (default JSUndefined (MusicDB.settings_store d0 !! "repeat"))
    with (setting "repeat").
  apply cells_fields in Hc1 as (H1 & H2 & H3 & H4 & H5 & H6 & H7 & H8 & H9).
  set (c := commit src env s1) in *.
  destruct (setting "lastTrackIndex") as [| |b|n|str];
    try destruct (array_get storedTracks n);
    destruct (strict_eq (setting "shuffle") JSNull),
             (strict_eq (setting "repeat") JSNull);
    unfold cells; cbn; by rewrite H1, H2, H3, H4, ?H5, H6, ?H7, ?H8.
Qed.

(** X9: started on a store that answers, the component shows the stored
    tracks, in the order [getAll] lists them, as library and queue, is ready
    and paused, and restores the stored position exactly when it is a number
    that is a position of that list; otherwise nothing is loaded.  On a
    store keyed by id the list holds the stored records in ascending order
    of id. *)
Theorem mount_restores_index (src : Source) (env : Env) :
  allSucceed env ->
  let d0 := MusicDB.upgrade (disk env) in
  let storedTracks := MusicDB.getAll (MusicDB.tracks_store d0) in
  let s' := step src env Mount initial in
  tracks s' = storedTracks /\ currentQueue s' = storedTracks
  /\ isReady s' = true /\ isPlaying s' = false
  /\ (forall n t,
        MusicDB.settings_store d0 !! "lastTrackIndex" = Some (JSNumber n) ->
        array_get storedTracks n = Some t ->
        currentTrackIndex s' = Some n /\ currentTrack s' = Some t)
  /\ ((forall n,
         MusicDB.settings_store d0 !! "lastTrackIndex" = Some (JSNumber n) ->
         array_get storedTracks n = None) ->
      currentTrackIndex s' = None)
  /\ (keyed d0 ->
      ascendingById (tracks s')
      /\ forall t, t ∈ tracks s' <-> MusicDB.tracks_store d0 !! Track.id t = Some t).
Proof.
  intros Hall d0 storedTracks s'.
  pose proof (mount_cells src env Hall) as Hc. fold d0 storedTracks s' in Hc.
  apply cells_fields in Hc as (Ht & _ & Hq & _ & Hi & Hp & _ & _ & Hr).
  split; [done|]. split; [done|]. split; [done|]. split; [done|].
  split; [|split].
  - intros n t Hn Hget. rewrite Hn in Hi. cbn -[array_get] in Hi.
    unfold storedTracks in Hget. rewrite Hget in Hi.
    split; [done|]. unfold currentTrack. by rewrite Hi, Hq.
  - intros Hno. rewrite Hi.
    destruct (MusicDB.settings_store d0 !! "lastTrackIndex") as [[| |b|n|str]|];
      cbn -[array_get]; try done.
    specialize (Hno n eq_refl). unfold storedTracks in Hno. by rewrite Hno.
  - intros Hk. rewrite Ht. split; [by apply getAll_ascending|].
    intros t. unfold storedTracks. rewrite getAll_elem. split.
    + intros [k Hl]. destruct Hk as [Hk _]. by rewrite (Hk k t Hl).
    + intros Hl. by eexists.
Qed.

Lemma mount_restores_index_witness :
  tracks (Fixture.resumed Part000) = [Sample.A; Sample.B; Sample.C]
  /\ currentTrackIndex (Fixture.resumed Part000) = Some 1%Z
  /\ currentTrack (Fixture.resumed Part000) = Some Sample.B
  /\ isPlaying (Fixture.resumed Part000) = false.
Proof.
  destruct (mount_restores_index Part000 Fixture.env) as (Ht & _ & _ & Hp & Hi & _).
  - intros q. reflexivity.
  - destruct (Hi 1%Z Sample.B) as [H1 H2];
      [reflexivity | vm_compute; reflexivity |].
    split; [unfold Fixture.resumed; rewrite Ht; vm_compute; reflexivity|].
    split; [exact H1|]. split; [exact H2 | exact Hp].
Defined.

(** X10: the same start restores shuffle and repeat from the store: a
    stored value other than [null] is taken as it is, a stored [null] keeps
    the default, and a key that was never stored reads as [undefined] and
    is installed as such, which [next()] treats as shuffle off and no
    repeat. *)
Theorem mount_restores_modes (src : Source) (env : Env) :
  allSucceed env ->
  let d0 := MusicDB.upgrade (disk env) in
  let s' := step src env Mount initial in
  (forall v, MusicDB.settings_store d0 !! "shuffle" = Some v -> v <> JSNull ->
             shuffle s' = v)
  /\ (forall v, MusicDB.settings_store d0 !! "repeat" = Some v -> v <> JSNull ->
                repeat s' = v)
  /\ (MusicDB.settings_store d0 !! "shuffle" = Some JSNull -> shuffle s' = JSBool false)
  /\ (MusicDB.settings_store d0 !! "repeat" = Some JSNull -> repeat s' = RepeatMode.None)
  /\ (MusicDB.settings_store d0 !! "shuffle" = None ->
      shuffle s' = JSUndefined /\ truthy (shuffle s') = false)
  /\ (MusicDB.settings_store d0 !! "repeat" = None ->
      repeat s' = JSUndefined
      /\ strict_eq (repeat s') RepeatMode.One = false
      /\ strict_eq (repeat s') RepeatMode.All = false).
Proof.
  intros Hall d0 s'.
  pose proof (mount_cells src env Hall) as Hc. fold d0 s' in Hc.
  apply cells_fields in Hc as (_ & _ & _ & _ & _ & _ & Hs & Hr & _).
  repeat split.
  - intros v Hv Hne. rewrite Hs, Hv. cbn. unfold strict_eq.
    by rewrite bool_decide_eq_false_2.
  - intros v Hv Hne. rewrite Hr, Hv. cbn. unfold strict_eq.
    by rewrite bool_decide_eq_false_2.
  - intros Hv. by rewrite Hs, Hv.
  - intros Hv. by rewrite Hr, Hv.
  - by rewrite Hs, H.
  - by rewrite Hs, H.
  - by rewrite Hr, H.
  - by rewrite Hr, H.
  - by rewrite Hr, H.
Qed.

Lemma mount_restores_modes_witness :
  shuffle (Fixture.resumed AppTsx) = JSBool true
  /\ repeat (Fixture.resumed AppTsx) = RepeatMode.All
  /\ shuffle (step AppTsx Sample.env Mount initial) = JSUndefined.
Proof.
  destruct (mount_restores_modes AppTsx Fixture.env) as (Hs & Hr & _);
    [intros q; reflexivity|].
  destruct (mount_restores_modes AppTsx Sample.env) as (_ & _ & _ & _ & Hu & _);
    [intros q; reflexivity|].
  split; [apply Hs; [reflexivity|discriminate]|].
  split; [apply Hr; [reflexivity|discriminate]|].
  apply Hu. reflexivity.
Defined.

(** ** The repeat button *)

(** X11: the repeat button goes none, all, one and back to none; any other
    value, such as the [undefined] of a first start, becomes none at the
    first press, so three presses from a mode come back to it and one press
    always lands on a mode. *)
Theorem cycleRepeat_period (s : State) :
  (repeat (cycleRepeat s) = RepeatMode.None
   \/ repeat (cycleRepeat s) = RepeatMode.All
   \/ repeat (cycleRepeat s) = RepeatMode.One)
  /\ (repeat s = RepeatMode.None \/ repeat s = RepeatMode.All
      \/ repeat s = RepeatMode.One ->
      repeat (cycleRepeat (cycleRepeat (cycleRepeat s))) = repeat s
      /\ repeat (cycleRepeat s) <> repeat s
      /\ repeat (cycleRepeat (cycleRepeat s)) <> repeat s)
  /\ (repeat s <> RepeatMode.None -> repeat s <> RepeatMode.All ->
      repeat s <> RepeatMode.One -> repeat (cycleRepeat s) = RepeatMode.None)
  /\ cells (cycleRepeat s)
     = (tracks s, playlists s, currentQueue s, queueRef s, currentTrackIndex s,
        isPlaying s, shuffle s, repeat (cycleRepeat s), isReady s).
Proof.
  split; [|split; [|split]].
  - unfold cycleRepeat. cbn. repeat case_match; auto.
  - intros [H | [H | H]]; unfold cycleRepeat; cbn; rewrite H; cbn;
      repeat split; discriminate.
  - intros H1 H2 H3. unfold cycleRepeat, strict_eq. cbn.
    by rewrite !bool_decide_eq_false_2.
  - reflexivity.
Qed.

Lemma cycleRepeat_period_witness :
  repeat (cycleRepeat (cycleRepeat (cycleRepeat (Fixture.resumed Part000))))
  = RepeatMode.All.
Proof.
  destruct (cycleRepeat_period (Fixture.resumed Part000)) as (_ & H & _).
  destruct H as (H & _); [right; left; reflexivity|].
  rewrite H. reflexivity.
Defined.

(** ** [prev()] undoes [next()] *)

Lemma prev_cells src env s i :
  currentTrackIndex s = Some i ->
  (0 <= i < len (currentQueue s))%Z ->
  cells (step src env Prev s)
  = cells (setIsPlaying true
             (setCurrentTrackIndex
                (Some ((i - 1 + len (currentQueue s)) `mod` len (currentQueue s))%Z) s)).
Proof.
  intros Hi Hv. rewrite step_cells. cbn [handle]. unfold handlePrev.
  replace (len (currentQueue s) =? 0)%Z with false by lia.
  rewrite Hi. by rewrite Z.rem_mod_nonneg by lia.
Qed.

(** X12: under repeat all without shuffle, [prev()] after [next()] and
    [next()] after [prev()] both come back to the position they started
    from, at either end of the queue too. *)
Theorem prev_next_inverse (src : Source) (env env' : Env) (s : State) (i : Z) :
  repeat s = RepeatMode.All ->
  truthy (shuffle s) = false ->
  currentTrackIndex s = Some i ->
  (0 <= i < len (currentQueue s))%Z ->
  currentTrackIndex (step src env' Prev (step src env Next s)) = Some i
  /\ currentTrackIndex (step src env' Next (step src env Prev s)) = Some i.
Proof.
  intros Hr Hs Hi Hv. set (n := len (currentQueue s)) in *. split.
  - pose proof (next_repeat_all_cells src env s i Hr Hs Hi Hv) as Hc.
    apply cells_inv in Hc as (_ & _ & Hq & Hi' & _). cbn in Hq, Hi'. fold n in Hi'.
    assert (Hv' : (0 <= (i + 1) `mod` n < len (currentQueue (step src env Next s)))%Z)
      by (rewrite Hq; apply Z.mod_pos_bound; lia).
    pose proof (prev_cells src env' _ _ Hi' Hv') as Hc.
    apply cells_inv in Hc as (_ & _ & _ & Hi'' & _). cbn in Hi''.
    rewrite Hi'', Hq. fold n. f_equal.
    destruct (Z.eq_dec (i + 1)%Z n) as [Heq|Hne].
    + rewrite Heq, Z.mod_same by lia.
      replace (0 - 1 + n)%Z with i by lia. apply Z.mod_small. lia.
    + rewrite (Z.mod_small (i + 1)) by lia.
      replace (i + 1 - 1 + n)%Z with (i + 1 * n)%Z by lia.
      rewrite Z.mod_add by lia. apply Z.mod_small. lia.
  - pose proof (prev_cells src env s i Hi Hv) as Hc.
    apply cells_inv in Hc as (_ & _ & Hq & Hi' & _ & Hs' & Hr' & _).
    cbn in Hq, Hi', Hs', Hr'. fold n in Hi'.
    assert (Hv' : (0 <= (i - 1 + n) `mod` n < len (currentQueue (step src env Prev s)))%Z)
      by (rewrite Hq; apply Z.mod_pos_bound; lia).
    pose proof (next_repeat_all_cells src env' _ _
                  ltac:(by rewrite Hr') ltac:(by rewrite Hs') Hi' Hv') as Hc.
    apply cells_inv in Hc as (_ & _ & _ & Hi'' & _). cbn in Hi''.
    rewrite Hi'', Hq. fold n. f_equal.
    destruct (Z.eq_dec i 0%Z) as [->|Hne].
    + replace (0 - 1 + n)%Z with (n - 1)%Z by lia.
      rewrite (Z.mod_small (n - 1)) by lia.
      replace (n - 1 + 1)%Z with n by lia. apply Z.mod_same. lia.
    + replace (i - 1 + n)%Z with (i - 1 + 1 * n)%Z by lia.
      rewrite Z.mod_add by lia. rewrite (Z.mod_small (i - 1)) by lia.
      replace (i - 1 + 1)%Z with i by lia. apply Z.mod_small. lia.
Qed.

Lemma prev_next_inverse_witness :
  let s := Sample.player AppTsx [Sample.A; Sample.B; Sample.C] 2 (JSBool false)
             RepeatMode.All in
  currentTrackIndex (step AppTsx Sample.env Prev (step AppTsx Sample.env Next s))
  = Some 2%Z.
Proof.
  intros s.
  destruct (prev_next_inverse AppTsx Sample.env Sample.env s 2%Z) as [H _].
  - vm_compute. reflexivity.
  - vm_compute. reflexivity.
  - vm_compute. reflexivity.
  - vm_compute. split; congruence.
  - exact H.
Defined.

(** ** What reaches the settings store *)

Lemma write_settings name o msg f self :
  (forall d, MusicDB.settings_store (f d) = MusicDB.settings_store d) ->
  MusicDB.settings_store <$> MusicDB.db (MusicDB.write name o msg f self).1
  = MusicDB.settings_store <$> MusicDB.db self.
Proof.
  intros Hf. unfold MusicDB.write, MusicDB.getStore.
  destruct (MusicDB.db self) as [d|] eqn:Hd; [|cbn; by rewrite ?Hd].
  destruct o; cbn; rewrite ?Hf, ?Hd; reflexivity.
Qed.

Lemma settingsOf_stored key s t :
  settingsOf t = settingsOf s -> storedSetting key t = storedSetting key s.
Proof. unfold storedSetting. by intros ->. Qed.

Lemma persist_other env key0 value key s :
  key <> key0 -> storedSetting key (persist env key0 value s) = storedSetting key s.
Proof.
  intros Hne. unfold storedSetting, settingsOf, persist, MusicDB.saveSetting,
    MusicDB.write, MusicDB.getStore. cbn [db setDb].
  destruct (MusicDB.db (db s)) as [d|] eqn:Hd; [|cbn; by rewrite ?Hd].
  destruct (request env _); cbn; rewrite ?Hd; cbn; [|done].
  by rewrite lookup_insert_ne.
Qed.

Lemma persist_same env key value s :
  allSucceed env -> is_Some (storedSetting key s) ->
  storedSetting key (persist env key value s) = Some (Some value).
Proof.
  intros Hall [x Hx]. unfold storedSetting, settingsOf, persist, MusicDB.saveSetting,
    MusicDB.write, MusicDB.getStore in *. cbn [db setDb].
  destruct (MusicDB.db (db s)) as [d|] eqn:Hd; [|discriminate].
  rewrite Hall. cbn. by rewrite lookup_insert_eq.
Qed.

Lemma persist_cells env key value s : cells (persist env key value s) = cells s.
Proof. reflexivity. Qed.

Lemma persist_rendered env key value s :
  rendered (persist env key value s) = rendered s.
Proof. reflexivity. Qed.

Lemma playEffect_rendered s : rendered (playEffect s) = rendered s.
Proof. unfold playEffect. by repeat case_match. Qed.

Lemma loadEffect_rendered src env s : rendered (loadEffect src env s) = rendered s.
Proof. unfold loadEffect, loadTrack. by repeat case_match. Qed.

Lemma loadEffect_stored src env key s :
  key <> "lastTrackIndex" ->
  storedSetting key (loadEffect src env s) = storedSetting key s.
Proof.
  intros Hne. unfold loadEffect, loadTrack.
  repeat case_match; try reflexivity; by rewrite persist_other.
Qed.

Lemma playEffect_stored key s : storedSetting key (playEffect s) = storedSetting key s.
Proof. unfold storedSetting, settingsOf. by rewrite playEffect_db. Qed.

Lemma changed_eq {A : Type} `{EqDecision A} (f : Deps -> A) s t :
  rendered t = rendered s -> deps_of t = deps_of s -> changed f t = changed f s.
Proof. unfold changed. by intros -> ->. Qed.

Lemma commit_AppTsx_stored env key s :
  key <> "lastTrackIndex" ->
  storedSetting key (commit AppTsx env s) = storedSetting key s.
Proof.
  intros Hne. unfold commit.
  change (storedSetting key (setRendered ?v ?x)) with (storedSetting key x).
  by rewrite playEffect_stored, loadEffect_stored.
Qed.

Lemma savePlaylist_settings o p m :
  MusicDB.settings_store <$> MusicDB.db (MusicDB.savePlaylist o p m).1
  = MusicDB.settings_store <$> MusicDB.db m.
Proof. by apply write_settings. Qed.

Lemma deleteTrack_settings o id m :
  MusicDB.settings_store <$> MusicDB.db (MusicDB.deleteTrack o id m).1
  = MusicDB.settings_store <$> MusicDB.db m.
Proof. by apply write_settings. Qed.

Lemma savePlaylists_settings env ps : forall m,
  MusicDB.settings_store <$> MusicDB.db (savePlaylists env ps m).1
  = MusicDB.settings_store <$> MusicDB.db m.
Proof.
  induction ps as [|p ps IH]; intros m; [done|]. cbn [savePlaylists].
  pose proof (savePlaylist_settings (request env (SavePlaylist (Playlist.id p))) p m) as Hp.
  destruct (MusicDB.savePlaylist _ p m) as [d' [[]|e]]; cbn [fst] in *.
  - by rewrite IH.
  - done.
Qed.

(** The handlers that never touch the store or the rendered dependencies. *)
Lemma handle_plain src env ev s :
  match ev with
  | Mount | RemoveTrack _ | AddTrackToPlaylist _ _ => False
  | _ => True
  end ->
  db (handle src env ev s) = db s
  /\ rendered (handle src env ev s) = rendered s
  /\ isReady (handle src env ev s) = isReady s.
Proof.
  destruct ev; try done; intros _; cbn [handle];
    unfold handleNext, handlePrev, togglePlay, toggleShuffle, cycleRepeat, rowClick,
      playAll, handlePlay, handlePause, playRejected, setQueueAndPlay;
    repeat case_match; done.
Qed.

Lemma addTrackToPlaylist_frame env playlistId trackId s :
  let t := addTrackToPlaylist env playlistId trackId s in
  settingsOf t = settingsOf s /\ rendered t = rendered s
  /\ isReady t = isReady s /\ shuffle t = shuffle s /\ repeat t = repeat s.
Proof.
  unfold addTrackToPlaylist.
  destruct (list_find _ (playlists s)) as [[k p]|]; [|done].
  destruct (bool_decide _); [done|].
  pose proof (savePlaylist_settings (request env (SavePlaylist playlistId))
                (withTrack trackId p) (db s)) as Hp.
  destruct (MusicDB.savePlaylist _ _ _) as [d [[]|e]]; cbn in *; done.
Qed.

Lemma removeTrack_AppTsx_frame env id s :
  let t := removeTrack AppTsx env id s in
  settingsOf t = settingsOf s /\ rendered t = rendered s.
Proof.
  unfold removeTrack.
  pose proof (deleteTrack_settings (request env (DeleteTrack id)) id (db s)) as Hp.
  destruct (MusicDB.deleteTrack _ _ _) as [d [[]|e]]; cbn [await fst snd] in *; [|done].
  by destruct (isCurrent id s).
Qed.

(** X14: [src/App.tsx] never writes the shuffle flag or the repeat mode to
    the store: whatever the event, short of a restart, the store holds under
    every key other than [lastTrackIndex] what it held before. *)
Theorem AppTsx_never_stores_modes (env : Env) (ev : Event) (s : State) (key : string) :
  ev <> Mount ->
  key <> "lastTrackIndex" ->
  storedSetting key (step AppTsx env ev s) = storedSetting key s.
Proof.
  intros Hev Hkey. unfold step. rewrite commit_AppTsx_stored by done.
  apply settingsOf_stored.
  destruct ev; try done;
    try (unfold settingsOf;
         match goal with
         | |- context [handle AppTsx env ?e s] =>
             by destruct (handle_plain AppTsx env e s I) as (-> & _)
         end).
  - apply removeTrack_AppTsx_frame.
  - apply addTrackToPlaylist_frame.
Qed.

Lemma AppTsx_never_stores_modes_witness :
  storedSetting "shuffle" (step AppTsx Fixture.env ToggleShuffle (Fixture.resumed AppTsx))
  = Some (Some (JSBool true))
  /\ shuffle (step AppTsx Fixture.env ToggleShuffle (Fixture.resumed AppTsx))
     = JSBool false.
Proof.
  split; [|reflexivity].
  rewrite (AppTsx_never_stores_modes Fixture.env ToggleShuffle (Fixture.resumed AppTsx)
             "shuffle"); [reflexivity | discriminate | discriminate].
Defined.

(** *** [part_000]: the modes are kept in the store *)

Lemma effects_before_settings env s :
  let s1 := loadEffect Part000 env (playEffect s) in
  cells s1 = cells s /\ rendered s1 = rendered s
  /\ (forall key, key <> "lastTrackIndex" -> storedSetting key s1 = storedSetting key s).
Proof.
  cbn zeta. split; [by rewrite loadEffect_cells, playEffect_cells|].
  split; [by rewrite loadEffect_rendered, playEffect_rendered|].
  intros key Hne. by rewrite loadEffect_stored, playEffect_stored.
Qed.

Lemma commit_Part000_unfold env s :
  commit Part000 env s
  = setRendered (Some (deps_of s))
      (settingsEffect Part000 env (loadEffect Part000 env (playEffect s))).
Proof. reflexivity. Qed.

Lemma commit_Part000_saved env s :
  allSucceed env ->
  isReady s = true ->
  is_Some (storedSetting "shuffle" s) ->
  (forall deps, rendered s = Some deps ->
     d_shuffle deps = shuffle s -> d_repeat deps = repeat s -> d_isReady deps = isReady s ->
     storedSetting "shuffle" s = Some (Some (shuffle s))
     /\ storedSetting "repeat" s = Some (Some (repeat s))) ->
  settingsSaved (commit Part000 env s).
Proof.
  intros Hall Hready Hopen Hkeep. rewrite commit_Part000_unfold.
  destruct (effects_before_settings env s) as (Hc & Hr & Hst).
  set (s1 := loadEffect Part000 env (playEffect s)) in *. clearbody s1.
  apply cells_inv in Hc as (_ & _ & _ & _ & _ & Hsh & Hrp & Hrd & _).
  assert (Hopen1 : is_Some (storedSetting "shuffle" s1)) by (by rewrite Hst).
  assert (Hopen2 : is_Some (storedSetting "repeat" s1)).
  { destruct Hopen1 as [x Hx]. unfold storedSetting, settingsOf in *.
    destruct (MusicDB.db (db s1)); [by eexists | discriminate]. }
  unfold settingsSaved, settingsEffect.
  destruct (changed d_shuffle s1 || changed d_repeat s1 || changed d_isReady s1) eqn:Hch.
  - rewrite Hrd, Hready.
    split; [cbn; congruence|]. split.
    + change (storedSetting "shuffle" (setRendered ?v ?x)) with (storedSetting "shuffle" x).
      rewrite persist_other by discriminate. rewrite persist_same by done.
      cbn. done.
    + change (storedSetting "repeat" (setRendered ?v ?x)) with (storedSetting "repeat" x).
      rewrite persist_same; [done|done|]. by rewrite persist_other by discriminate.
  - apply orb_false_elim in Hch as [Hch Hch3]. apply orb_false_elim in Hch as [Hch1 Hch2].
    unfold changed in Hch1, Hch2, Hch3. rewrite Hr in Hch1, Hch2, Hch3.
    destruct (rendered s) as [deps|] eqn:Hdeps; [|discriminate].
    apply negb_false_iff, bool_decide_eq_true in Hch1, Hch2, Hch3.
    cbn in Hch1, Hch2, Hch3. rewrite Hsh in Hch1. rewrite Hrp in Hch2. rewrite Hrd in Hch3.
    destruct (Hkeep deps eq_refl Hch1 Hch2 Hch3) as [Hs1 Hs2].
    split; [cbn; by rewrite Hrd|]. split.
    + change (storedSetting "shuffle" (setRendered ?v ?x)) with (storedSetting "shuffle" x).
      rewrite Hst by discriminate. cbn. by rewrite Hsh.
    + change (storedSetting "repeat" (setRendered ?v ?x)) with (storedSetting "repeat" x).
      rewrite Hst by discriminate. cbn. by rewrite Hrp.
Qed.

Lemma commit_Part000_stored env s key :
  key <> "lastTrackIndex" ->
  (exists deps, rendered s = Some deps /\ d_shuffle deps = shuffle s
                /\ d_repeat deps = repeat s /\ d_isReady deps = isReady s) ->
  storedSetting key (commit Part000 env s) = storedSetting key s.
Proof.
  intros Hne (deps & Hdeps & H1 & H2 & H3). rewrite commit_Part000_unfold.
  destruct (effects_before_settings env s) as (Hc & Hr & Hst).
  set (s1 := loadEffect Part000 env (playEffect s)) in *. clearbody s1.
  apply cells_inv in Hc as (_ & _ & _ & _ & _ & Hsh & Hrp & Hrd & _).
  change (storedSetting key (setRendered ?v ?x)) with (storedSetting key x).
  unfold settingsEffect, changed. rewrite Hr, Hdeps. cbn.
  rewrite Hsh, Hrp, Hrd, H1, H2, H3.
  rewrite !bool_decide_eq_true_2 by done. cbn. by apply Hst.
Qed.

Lemma removeTrack_Part000_frame env id s :
  settled s ->
  let t := removeTrack Part000 env id s in
  isReady t = isReady s /\ modesRendered s t
  /\ (forall key, key <> "lastTrackIndex" -> storedSetting key t = storedSetting key s).
Proof.
  intros Hs. unfold removeTrack.
  assert (Hm : modesRendered s s) by (exists (deps_of s); by rewrite Hs).
  pose proof (deleteTrack_settings (request env (DeleteTrack id)) id (db s)) as Hp.
  destruct (MusicDB.deleteTrack _ _ _) as [d [[]|e]]; cbn [await fst snd] in *; [|done].
  set (s1 := setCurrentQueue _ _).
  destruct (withoutTrack id <$> playlists s) as [|p ps] eqn:Hps.
  - destruct (isCurrent id s); (split; [done|]); (split; [exact Hm|]);
      intros key _; apply settingsOf_stored; exact Hp.
  - set (s2 := setPlaylists (p :: ps) s1).
    assert (Hm2 : exists deps, rendered s2 = Some deps /\ d_shuffle deps = shuffle s2
                   /\ d_repeat deps = repeat s2 /\ d_isReady deps = isReady s2)
      by (exists (deps_of s); by rewrite <- Hs).
    set (s3 := commit Part000 env s2).
    assert (Hst3 : forall key, key <> "lastTrackIndex" ->
                     storedSetting key s3 = storedSetting key s).
    { intros key Hne. subst s3. rewrite commit_Part000_stored by done.
      apply settingsOf_stored. exact Hp. }
    assert (Hc3 : cells s3 = cells s2) by apply commit_cells.
    apply cells_inv in Hc3 as (_ & _ & _ & _ & _ & Hsh & Hrp & Hrd & _).
    assert (Hm3 : modesRendered s s3).
    { exists (deps_of s2). by split. }
    pose proof (savePlaylists_settings env (p :: ps) (db s3)) as Hsv.
    destruct (savePlaylists env (p :: ps) (db s3)) as [d' [[]|e']];
      cbn [await fst snd] in *;
      try destruct (isCurrent id s);
      (split; [cbn; by rewrite Hrd|]); (split; [exact Hm3|]);
      intros key Hne; rewrite <- (Hst3 key Hne);
      apply settingsOf_stored; exact Hsv.
Qed.

Lemma handle_Part000_frame env ev s :
  ev <> Mount ->
  settled s ->
  let t := handle Part000 env ev s in
  isReady t = isReady s /\ modesRendered s t
  /\ (forall key, key <> "lastTrackIndex" -> storedSetting key t = storedSetting key s).
Proof.
  intros Hev Hs.
  assert (Hm : modesRendered s s) by (exists (deps_of s); by rewrite Hs).
  destruct ev; try done;
    try (match goal with
         | |- context [handle Part000 env ?e s] =>
             destruct (handle_plain Part000 env e s I) as (Hdb & Hr & Hrd)
         end;
         cbn zeta; split; [exact Hrd|]; split;
         [exists (deps_of s); by rewrite Hr, Hs
         |intros key _; unfold storedSetting, settingsOf; by rewrite Hdb]).
  - by apply removeTrack_Part000_frame.
  - destruct (addTrackToPlaylist_frame env playlistId trackId s) as (H1 & H2 & H3 & _).
    cbn [handle]. split; [exact H3|]. split.
    + exists (deps_of s). by rewrite H2, Hs.
    + intros key _. by apply settingsOf_stored.
Qed.

Lemma init_facts src env s0 :
  allSucceed env ->
  currentTrackIndex s0 = None ->
  isReady s0 = false ->
  let t := init src env s0 in
  isReady t = true
  /\ db t = {| MusicDB.db := Some (MusicDB.upgrade (disk env)) |}
  /\ exists deps, rendered t = Some deps /\ d_isReady deps = false.
Proof.
  intros Hall Hi Hr. unfold init. rewrite !Hall.
  cbn [MusicDB.init fst snd await].
  set (s0' := setDb _ s0).
  assert (Hs0 : db s0' = {| MusicDB.db := Some (MusicDB.upgrade (disk env)) |})
    by reflexivity.
  rewrite Hs0.
  unfold MusicDB.getAllTracks, MusicDB.getPlaylists, MusicDB.getSetting, MusicDB.getStore.
  cbn [MusicDB.db await].
  set (s1 := setCurrentQueue _ _).
  assert (Hi1 : currentTrackIndex s1 = None) by exact Hi.
  assert (Hr1 : isReady s1 = false) by exact Hr.
  assert (Hdb1 : db (commit src env s1)
                 = {| MusicDB.db := Some (MusicDB.upgrade (disk env)) |})
    by (by rewrite commit_db_idle).
  rewrite Hdb1. cbn [MusicDB.db await].
  set (c := commit src env s1) in *.
  assert (Hrend : rendered c = Some (deps_of s1)) by reflexivity.
  clearbody c.
  repeat case_match; cbn; (split; [reflexivity|]); (split; [exact Hdb1|]);
    exists (deps_of s1); (split; [exact Hrend | exact Hr1]).
Qed.

Lemma step_Part000_saved env ev s :
  ev <> Mount ->
  allSucceed env ->
  settled s ->
  settingsSaved s ->
  settingsSaved (step Part000 env ev s).
Proof.
  intros Hev Hall Hs (Hready & Hsh & Hrp).
  destruct (handle_Part000_frame env ev s Hev Hs) as (Hrd & (deps & Hdeps & H1 & H2 & H3) & Hst).
  unfold step. apply commit_Part000_saved.
  - exact Hall.
  - by rewrite Hrd.
  - rewrite Hst by discriminate. rewrite Hsh. by eexists.
  - intros deps' Hdeps' E1 E2 E3. rewrite Hdeps in Hdeps'. injection Hdeps' as <-.
    rewrite !Hst by discriminate. rewrite Hsh, Hrp. split; congruence.
Qed.

Lemma run_Part000_saved evs : forall s,
  Forall (fun e : Env * Event => allSucceed e.1 /\ e.2 <> Mount) evs ->
  settled s ->
  settingsSaved s ->
  settingsSaved (run Part000 evs s).
Proof.
  induction evs as [|[env ev] evs IH]; intros s Hall Hs Hsaved; [done|].
  apply Forall_cons in Hall as [[Henv Hev] Hall]. cbn in Henv, Hev.
  change (run Part000 ((env, ev) :: evs) s) with (run Part000 evs (step Part000 env ev s)).
  apply IH; [done | apply commit_settled | by apply step_Part000_saved].
Qed.

(** X13: in [part_000], once the component has started on a store that
    answers, the store holds the current shuffle flag and repeat mode after
    every event, and a restart on that store brings both back. *)
Theorem settings_durable (env0 : Env) (evs : list (Env * Event)) :
  allSucceed env0 ->
  Forall (fun e : Env * Event => allSucceed e.1 /\ e.2 <> Mount) evs ->
  let s := run Part000 ((env0, Mount) :: evs) initial in
  settingsSaved s
  /\ forall env',
       allSucceed env' ->
       disk env' = MusicDB.db (db s) ->
       (shuffle s <> JSNull -> shuffle (step Part000 env' Mount initial) = shuffle s)
       /\ (repeat s <> JSNull -> repeat (step Part000 env' Mount initial) = repeat s).
Proof.
  intros Hall0 Hall s.
  assert (Hsaved : settingsSaved s).
  { subst s.
    change (run Part000 ((env0, Mount) :: evs) initial)
      with (run Part000 evs (step Part000 env0 Mount initial)).
    apply run_Part000_saved; [done | apply commit_settled |].
    unfold step. cbn [handle].
    assert (Hi0 : currentTrackIndex (commit Part000 env0 initial) = None)
      by (by destruct (cells_inv _ _ (commit_cells Part000 env0 initial))
            as (_ & _ & _ & -> & _)).
    assert (Hr0 : isReady (commit Part000 env0 initial) = false)
      by (by destruct (cells_inv _ _ (commit_cells Part000 env0 initial))
            as (_ & _ & _ & _ & _ & _ & _ & -> & _)).
    destruct (init_facts Part000 env0 _ Hall0 Hi0 Hr0) as (Hready & Hdb & deps & Hdeps & Hd).
    apply commit_Part000_saved; [done | done | |].
    - unfold storedSetting, settingsOf. rewrite Hdb. by eexists.
    - intros deps' Hdeps' _ _ E. rewrite Hdeps in Hdeps'. injection Hdeps' as <-.
      congruence. }
  split; [exact Hsaved|].
  intros env' Hall' Hdisk.
  destruct Hsaved as (_ & Hsh & Hrp).
  unfold storedSetting, settingsOf in Hsh, Hrp.
  destruct (MusicDB.db (db s)) as [d|] eqn:Hd; [|discriminate].
  cbn in Hsh, Hrp. injection Hsh as Hsh. injection Hrp as Hrp.
  pose proof (mount_cells Part000 env' Hall') as Hc.
  apply cells_fields in Hc as (_ & _ & _ & _ & _ & _ & Hs' & Hr' & _).
  rewrite Hdisk in Hs', Hr'. cbn in Hs', Hr'. rewrite Hsh in Hs'. rewrite Hrp in Hr'.
  cbn in Hs', Hr'. unfold strict_eq in Hs', Hr'.
  split; intros Hne.
  - by rewrite bool_decide_eq_false_2 in Hs'.
  - by rewrite bool_decide_eq_false_2 in Hr'.
Qed.

Lemma settings_durable_witness :
  let s := run Part000 [(Sample.env, Mount); (Sample.env, ToggleShuffle);
                        (Sample.env, CycleRepeat)] initial in
  storedSetting "shuffle" s = Some (Some (JSBool true))
  /\ storedSetting "repeat" s = Some (Some RepeatMode.None).
Proof.
  intros s.
  destruct (settings_durable Sample.env [(Sample.env, ToggleShuffle);
                                         (Sample.env, CycleRepeat)])
    as ((_ & Hsh & Hrp) & _).
  - intros q. reflexivity.
  - repeat constructor; cbn; try (intros q; reflexivity); discriminate.
  - fold s in Hsh, Hrp. split; [rewrite Hsh | rewrite Hrp]; reflexivity.
Defined.

(** ** Loading the selected track *)

Lemma array_get_nat {A : Type} (l : list A) (i : nat) :
  array_get l (Z.of_nat i) = l !! i.
Proof.
  unfold array_get. destruct (Z.leb_spec 0 (Z.of_nat i)); [|lia].
  by rewrite Nat2Z.id.
Qed.

Lemma settingsEffect_frame src env s :
  audio (settingsEffect src env s) = audio s
  /\ lastTrackId (settingsEffect src env s) = lastTrackId s
  /\ (forall key, key <> "shuffle" -> key <> "repeat" ->
        storedSetting key (settingsEffect src env s) = storedSetting key s).
Proof.
  unfold settingsEffect.
  repeat case_match; (split; [reflexivity|]); (split; [reflexivity|]);
    intros key Hk1 Hk2; try reflexivity.
  by rewrite !persist_other.
Qed.

Lemma playEffect_frame s :
  a_src (audio (playEffect s)) = a_src (audio s)
  /\ a_currentTime (audio (playEffect s)) = a_currentTime (audio s)
  /\ lastTrackId (playEffect s) = lastTrackId s
  /\ (changed d_isPlaying s = true -> a_paused (audio (playEffect s)) = negb (isPlaying s))
  /\ (changed d_isPlaying s = false -> audio (playEffect s) = audio s).
Proof.
  unfold playEffect.
  destruct (changed d_isPlaying s), (isPlaying s); repeat split; try reflexivity;
    discriminate.
Qed.

(** X15: in [part_000], clicking a row of a list makes that list the queue
    and starts a track with the row's id: the audio element is loaded with
    that track's blob at position 0 and asked to play, and the position is
    written to the store under [lastTrackIndex]. *)
Theorem rowClick_Part000_loads (env : Env) (l : list Track.t) (row : nat)
    (track : Track.t) (s : State) :
  settled s ->
  allSucceed env ->
  is_Some (MusicDB.db (db s)) ->
  l !! row = Some track ->
  let s' := step Part000 env (RowClick l row) s in
  exists i track',
    currentTrackIndex s' = Some i
    /\ currentTrack s' = Some track'
    /\ Track.id track' = Track.id track
    /\ currentQueue s' = l
    /\ isPlaying s' = true
    /\ a_src (audio s') = Some (Track.blob track')
    /\ a_currentTime (audio s') = 0%Q
    /\ a_paused (audio s') = false
    /\ storedSetting "lastTrackIndex" s' = Some (Some (JSNumber i)).
Proof.
  intros Hs Hall [d Hd] Hrow s'.
  assert (Hfind : exists i track', list_find (fun t => Track.id t = Track.id track) l
                                   = Some (i, track')).
  { destruct (list_find _ l) as [[i t']|] eqn:Hf; [by eauto|].
    apply list_find_None in Hf. rewrite Forall_lookup in Hf.
    by destruct (Hf row track Hrow). }
  destruct Hfind as (i & track' & Hf).
  pose proof Hf as Hf'. apply list_find_Some in Hf' as (Hi & Hid & _).
  exists (Z.of_nat i), track'.
  set (t := setQueueAndPlay l (Z.of_nat i) s).
  assert (Ht : handle Part000 env (RowClick l row) s = t).
  { cbn [handle]. unfold rowClick, findIndex. by rewrite Hrow, Hf. }
  assert (Hcur : currentTrack t = Some track').
  { unfold currentTrack. cbn. by rewrite array_get_nat. }
  pose proof (step_cells Part000 env (RowClick l row) s) as Hc. fold s' in Hc.
  rewrite Ht in Hc. apply cells_inv in Hc as (_ & _ & Hq & Hix & Hp & _).
  cbn in Hq, Hix, Hp.
  split; [done|]. split; [unfold currentTrack; rewrite Hix, Hq; by rewrite array_get_nat|].
  split; [done|]. split; [done|]. split; [done|].
  subst s'. unfold step. rewrite Ht, commit_Part000_unfold.
  set (t1 := playEffect t).
  destruct (playEffect_frame t) as (_ & _ & _ & _ & _).
  assert (Hc1 : cells t1 = cells t) by apply playEffect_cells.
  apply cells_inv in Hc1 as (_ & _ & Hq1 & Hi1 & Hp1 & _ & _ & _ & Hg1).
  assert (Hr1 : rendered t1 = Some (deps_of s))
    by (subst t1; rewrite playEffect_rendered; exact Hs).
  assert (Hdb1 : db t1 = db s) by (subst t1; by rewrite playEffect_db).
  assert (Hload : loadEffect Part000 env t1 = loadTrack env track' (Z.of_nat i) t1).
  { unfold loadEffect, changed. rewrite Hr1. cbn [d_queue d_index deps_of].
    rewrite Hg1. cbn [queueRef setQueueAndPlay setIsPlaying setCurrentTrackIndex
                        setCurrentQueue t].
    rewrite (bool_decide_eq_false_2 (queueRef s = S (queueRef s))) by lia.
    rewrite orb_true_r. unfold currentTrack. rewrite Hi1, Hq1.
    cbn [currentTrackIndex currentQueue setQueueAndPlay setIsPlaying
           setCurrentTrackIndex setCurrentQueue t].
    by rewrite array_get_nat, Hi. }
  rewrite Hload.
  destruct (settingsEffect_frame Part000 env (loadTrack env track' (Z.of_nat i) t1))
    as (Ha & _ & Hst).
  change (audio (setRendered ?v ?x)) with (audio x).
  change (storedSetting "lastTrackIndex" (setRendered ?v ?x))
    with (storedSetting "lastTrackIndex" x).
  rewrite Ha, Hst by discriminate.
  unfold loadTrack. rewrite Hp1. cbn [isPlaying setQueueAndPlay setIsPlaying t].
  split; [reflexivity|]. split; [reflexivity|]. split; [reflexivity|].
  apply persist_same; [done|].
  unfold storedSetting, settingsOf. cbn [db setAudio]. rewrite Hdb1, Hd. by eexists.
Qed.

Lemma rowClick_Part000_loads_witness :
  let s' := step Part000 Sample.env (RowClick [Sample.A; Sample.B] 1)
              (Fixture.resumed Part000) in
  a_src (audio s') = Some Sample.mp3
  /\ storedSetting "lastTrackIndex" s' = Some (Some (JSNumber 1)).
Proof.
  intros s'.
  destruct (rowClick_Part000_loads Sample.env [Sample.A; Sample.B] 1 Sample.B
              (Fixture.resumed Part000))
    as (i & track' & _ & _ & _ & _ & _ & Hsrc & _ & _ & Hst).
  - vm_compute. reflexivity.
  - intros q. reflexivity.
  - vm_compute. eexists. reflexivity.
  - reflexivity.
  - clear Hsrc Hst. vm_compute. split; reflexivity.
Defined.

(** X16: in [src/App.tsx], clicking a row whose track is the one already
    loaded (its id is in the [lastTrackId] ref) moves the index to that row
    but neither reloads nor rewinds the audio element, and the new position
    is not written to the store. *)
Theorem rowClick_AppTsx_same_track (env : Env) (l : list Track.t) (row : nat)
    (track : Track.t) (s : State) :
  l !! row = Some track ->
  lastTrackId s = Some (Track.id track) ->
  let s' := step AppTsx env (RowClick l row) s in
  currentTrackIndex s' = Some (Z.of_nat row)
  /\ currentQueue s' = l
  /\ a_src (audio s') = a_src (audio s)
  /\ a_currentTime (audio s') = a_currentTime (audio s)
  /\ db s' = db s.
Proof.
  intros Hrow Hlast s'.
  set (t := setQueueAndPlay l (Z.of_nat row) s).
  assert (Ht : handle AppTsx env (RowClick l row) s = t)
    by (cbn [handle]; unfold rowClick; by rewrite Hrow).
  pose proof (step_cells AppTsx env (RowClick l row) s) as Hc. fold s' in Hc.
  rewrite Ht in Hc. apply cells_inv in Hc as (_ & _ & Hq & Hix & _).
  split; [done|]. split; [done|].
  assert (Hload : loadEffect AppTsx env t = t).
  { unfold loadEffect. destruct (changed d_trackId t); [|done].
    assert (Hcur : currentTrack t = Some track)
      by (unfold currentTrack; cbn; by rewrite array_get_nat).
    rewrite Hcur. cbn [currentTrackIndex setQueueAndPlay setIsPlaying
                         setCurrentTrackIndex setCurrentQueue t].
    cbn [lastTrackId setQueueAndPlay setIsPlaying setCurrentTrackIndex
           setCurrentQueue t].
    by rewrite bool_decide_eq_true_2. }
  subst s'. unfold step, commit. rewrite Ht, Hload.
  destruct (playEffect_frame t) as (Hsrc & Htime & _).
  cbn [audio db setRendered]. rewrite Hsrc, Htime, playEffect_db. done.
Qed.

Lemma rowClick_AppTsx_same_track_witness :
  let s := step AppTsx Sample.env (RowClick [Sample.A; Sample.B] 1)
             (Fixture.resumed AppTsx) in
  let s' := step AppTsx Sample.env (RowClick [Sample.B] 0) s in
  currentTrackIndex s' = Some 0%Z /\ db s' = db s.
Proof.
  intros s s'.
  destruct (rowClick_AppTsx_same_track Sample.env [Sample.B] 0 Sample.B s)
    as (Hi & _ & _ & _ & Hdb).
  - reflexivity.
  - vm_compute. reflexivity.
  - split; [exact Hi | exact Hdb].
Defined.

(** ** Favourites *)

Lemma replaceTrack_ids id updated l :
  Track.id updated = id -> ids (replaceTrack id updated l) = ids l.
Proof.
  intros Hu. unfold ids, replaceTrack. rewrite <- list_fmap_compose.
  apply list_fmap_ext. intros i t _. cbn. case_bool_decide; congruence.
Qed.

Lemma replaceTrack_length id updated l :
  length (replaceTrack id updated l) = length l.
Proof. unfold replaceTrack. apply length_fmap. Qed.

Lemma replaceTrack_get id updated l i :
  Track.id updated = id ->
  Track.id <$> array_get (replaceTrack id updated l) i = Track.id <$> array_get l i.
Proof.
  intros Hu. unfold array_get, replaceTrack. destruct (0 <=? i)%Z; [|done].
  rewrite list_lookup_fmap. destruct (l !! Z.to_nat i) as [t|]; [|done].
  cbn. case_bool_decide; congruence.
Qed.

(** X17: [toggleFavorite] keeps the ids and the order of the library and of
    the queue, the index and the playing flag, so the current track is still
    the one with the same id and a valid index stays valid; it does nothing
    when no track has the id or when the store refuses the save. *)
Theorem toggleFavorite_keeps_order (o : MusicDB.ReqOutcome) (trackId : string)
    (s : State) :
  let s' := toggleFavorite o trackId s in
  ids (tracks s') = ids (tracks s)
  /\ ids (currentQueue s') = ids (currentQueue s)
  /\ currentTrackIndex s' = currentTrackIndex s
  /\ isPlaying s' = isPlaying s
  /\ Track.id <$> currentTrack s' = Track.id <$> currentTrack s
  /\ (indexValid s -> indexValid s')
  /\ (list_find (fun t => Track.id t = trackId) (tracks s) = None -> s' = s)
  /\ (is_Some (MusicDB.db (db s)) -> o = MusicDB.ReqError -> s' = s).
Proof.
  intros s'. subst s'. unfold toggleFavorite.
  destruct (list_find _ (tracks s)) as [[k track]|] eqn:Hf; [|by repeat split].
  apply list_find_Some in Hf as (_ & Hid & _).
  assert (Hu : Track.id (flipFavorite track) = trackId) by exact Hid.
  destruct (MusicDB.saveTrack o (flipFavorite track) (db s)) as [d [[]|e]] eqn:Hsave;
    cbn [await fst snd].
  - split; [by apply replaceTrack_ids|]. split; [by apply replaceTrack_ids|].
    split; [done|]. split; [done|]. split.
    { unfold currentTrack. cbn. destruct (currentTrackIndex s); [|done].
      by apply replaceTrack_get. }
    split.
    { unfold indexValid, len. cbn. by rewrite replaceTrack_length. }
    split; [done|]. intros [d0 Hd] ->.
    unfold MusicDB.saveTrack in Hsave. rewrite (write_error _ _ _ _ d0 Hd) in Hsave.
    discriminate.
  - by repeat split.
Qed.

Lemma toggleFavorite_keeps_order_witness :
  indexValid (toggleFavorite MusicDB.ReqSuccess "a" (Sample.listening Part000)).
Proof.
  destruct (toggleFavorite_keeps_order MusicDB.ReqSuccess "a" (Sample.listening Part000))
    as (_ & _ & _ & _ & _ & H & _).
  apply H. clear H. vm_compute. split; congruence.
Defined.

(** X18: when a track with the id exists and the store saves, every track
    with that id in the library then carries the negated flag of the first
    such track (a missing flag counting as false), the other tracks are kept
    as they are, and the store holds the flipped track under the id. *)
Theorem toggleFavorite_flips (trackId : string) (s : State) (k : nat)
    (track : Track.t) (d : MusicDB.IDBDatabase) :
  list_find (fun t => Track.id t = trackId) (tracks s) = Some (k, track) ->
  MusicDB.db (db s) = Some d ->
  let s' := toggleFavorite MusicDB.ReqSuccess trackId s in
  (forall t, t ∈ tracks s' -> Track.id t = trackId ->
     Track.isFavorite t = Some (negb (default false (Track.isFavorite track))))
  /\ (forall t, Track.id t <> trackId -> (t ∈ tracks s' <-> t ∈ tracks s))
  /\ (exists d', MusicDB.db (db s') = Some d'
        /\ MusicDB.tracks_store d' !! trackId = Some (flipFavorite track)).
Proof.
  intros Hf Hd s'. subst s'. unfold toggleFavorite. rewrite Hf.
  pose proof Hf as Hf'. apply list_find_Some in Hf' as (_ & Hid & _).
  unfold MusicDB.saveTrack. rewrite (write_success _ _ _ _ d Hd). cbn [await fst snd].
  cbn [tracks setCurrentQueue setTracks db setDb].
  split; [|split].
  - intros t Hin Ht. unfold replaceTrack in Hin.
    apply list_elem_of_fmap in Hin as (t0 & -> & _).
    case_bool_decide as Hb; [reflexivity|]. cbn in Ht. congruence.
  - intros t Hne. unfold replaceTrack. rewrite list_elem_of_fmap. split.
    + intros (t0 & -> & Hin). case_bool_decide as Hb; [|done]. cbn in Hne. congruence.
    + intros Hin. exists t. split; [|done]. by rewrite bool_decide_eq_false_2.
  - eexists. split; [reflexivity|]. cbn. rewrite <- Hid at 1.
    apply lookup_insert_eq.
Qed.

Lemma toggleFavorite_flips_witness :
  exists d',
    MusicDB.db (db (toggleFavorite MusicDB.ReqSuccess "a" (Sample.listening Part000)))
      = Some d'
    /\ MusicDB.tracks_store d' !! "a" = Some (flipFavorite Sample.A).
Proof.
  edestruct (toggleFavorite_flips "a" (Sample.listening Part000) 0 Sample.A)
    as (_ & _ & H); [vm_compute; reflexivity | vm_compute; reflexivity | exact H].
Defined.

(** ** Importing files *)

Open Scope list_scope.

Lemma getMetadata_resolves btoa src reader file :
  exists tags, getMetadata btoa src reader file = Resolved tags.
Proof. destruct reader; eexists; reflexivity. Qed.

Lemma saveTrack_open o track m :
  is_Some (MusicDB.db m) -> is_Some (MusicDB.db (MusicDB.saveTrack o track m).1).
Proof. apply write_open. Qed.

Lemma imports_true f :
  imports f = true <-> isAudio (file f) = true /\ saved f = MusicDB.ReqSuccess.
Proof.
  unfold imports. destruct (isAudio (file f)), (saved f); cbn; split;
    first [by intros [? ?] | done].
Qed.

(** The loop of [part_000] on an open store: the batch grows by exactly the
    files that are audio and were saved. *)
Lemma importFiles_Part000 btoa files : forall d batch,
  is_Some (MusicDB.db d) ->
  exists d' kept,
    importFiles btoa Part000 files d batch = (d', Resolved (batch ++ kept))
    /\ ids kept = newId <$> filter (fun f => imports f = true) files
    /\ is_Some (MusicDB.db d').
Proof.
  induction files as [|f files IH]; intros d batch Hopen.
  - exists d, []. by rewrite app_nil_r.
  - cbn [importFiles].
    destruct (isAudio (file f)) eqn:Haudio.
    + destruct (getMetadata_resolves btoa Part000 (reader f) (file f)) as [tags ->].
      pose proof (saveTrack_open (saved f)
                    (importedTrack Part000 (newId f) (now f) (probed f) (file f) tags)
                    d Hopen) as Hopen'.
      destruct Hopen as [d0 Hd0].
      destruct (saved f) eqn:Hsaved.
      * unfold MusicDB.saveTrack in *. rewrite (write_success _ _ _ _ d0 Hd0) in *.
        cbn [fst] in Hopen'.
        destruct (IH _ (batch ++ [importedTrack Part000 (newId f) (now f) (probed f)
                                     (file f) tags]) Hopen') as (d' & kept & -> & Hids & Ho).
        exists d', (importedTrack Part000 (newId f) (now f) (probed f) (file f) tags :: kept).
        split; [by rewrite <- app_assoc|]. split; [|done].
        rewrite filter_cons_True by (apply imports_true; done).
        cbn. by rewrite <- Hids.
      * unfold MusicDB.saveTrack in *. rewrite (write_error _ _ _ _ d0 Hd0) in *.
        destruct (IH d batch ltac:(by eexists)) as (d' & kept & -> & Hids & Ho).
        exists d', kept. split; [done|]. split; [|done].
        rewrite filter_cons_False; [done|].
        rewrite imports_true. intros [_ ?]. congruence.
    + destruct (IH d batch Hopen) as (d' & kept & -> & Hids & Ho).
      exists d', kept. split; [done|]. split; [|done].
      rewrite filter_cons_False; [done|].
      rewrite imports_true. intros [? _]. congruence.
Qed.

(** The loop of [src/App.tsx] on an open store: it ends with the whole
    batch when every audio file is saved, and is rejected at the first
    audio file the store refuses. *)
Lemma importFiles_AppTsx btoa files : forall d batch,
  is_Some (MusicDB.db d) ->
  (Forall (fun f => isAudio (file f) = true -> saved f = MusicDB.ReqSuccess) files ->
   exists d' kept,
     importFiles btoa AppTsx files d batch = (d', Resolved (batch ++ kept))
     /\ ids kept = newId <$> filter (fun f => isAudio (file f) = true) files)
  /\ (Exists (fun f => isAudio (file f) = true /\ saved f = MusicDB.ReqError) files ->
      exists d',
        importFiles btoa AppTsx files d batch
        = (d', Rejected (Message "Error saving track"))).
Proof.
  induction files as [|f files IH]; intros d batch Hopen.
  - split; [|by intros H; apply Exists_nil in H].
    intros _. exists d, []. by rewrite app_nil_r.
  - cbn [importFiles].
    destruct (isAudio (file f)) eqn:Haudio.
    + destruct (getMetadata_resolves btoa AppTsx (reader f) (file f)) as [tags ->].
      pose proof (saveTrack_open (saved f)
                    (importedTrack AppTsx (newId f) (now f) (probed f) (file f) tags)
                    d Hopen) as Hopen'.
      destruct Hopen as [d0 Hd0].
      destruct (saved f) eqn:Hsaved.
      * unfold MusicDB.saveTrack in *. rewrite (write_success _ _ _ _ d0 Hd0) in *.
        cbn [fst] in Hopen'.
        destruct (IH _ (batch ++ [importedTrack AppTsx (newId f) (now f) (probed f)
                                     (file f) tags]) Hopen') as [IH1 IH2].
        split.
        -- intros Hall. apply Forall_cons in Hall as [_ Hall].
           destruct (IH1 Hall) as (d' & kept & -> & Hids).
           exists d', (importedTrack AppTsx (newId f) (now f) (probed f) (file f) tags
                         :: kept).
           split; [by rewrite <- app_assoc|].
           rewrite filter_cons_True by done. cbn. by rewrite <- Hids.
        -- intros Hex. apply Exists_cons in Hex as [[_ Hbad]|Hex]; [congruence|].
           by apply IH2.
      * unfold MusicDB.saveTrack in *. rewrite (write_error _ _ _ _ d0 Hd0) in *.
        split.
        -- intros Hall. apply Forall_cons in Hall as [Hf _].
           specialize (Hf Haudio). congruence.
        -- intros _. by eexists.
    + destruct (IH d batch Hopen) as [IH1 IH2]. split.
      * intros Hall. apply Forall_cons in Hall as [_ Hall].
        destruct (IH1 Hall) as (d' & kept & -> & Hids).
        exists d', kept. split; [done|].
        rewrite filter_cons_False; [done|]. congruence.
      * intros Hex. apply Exists_cons in Hex as [[Hbad _]|Hex]; [congruence|].
        by apply IH2.
Qed.

(** X19: in [part_000], an import on an open store appends to the library,
    in the order picked, exactly the files whose type starts with [audio/]
    and whose save succeeded: files of another type are skipped, and a
    refused save drops that one file without ending the batch. *)
Theorem handleFileImport_Part000 (btoa : string -> string) (activeTab : PlayerMode.t)
    (files : list Picked) (s : State) :
  is_Some (MusicDB.db (db s)) ->
  exists batch,
    tracks (handleFileImport btoa Part000 activeTab files s) = tracks s ++ batch
    /\ ids batch = newId <$> filter (fun f => imports f = true) files.
Proof.
  intros Hopen. unfold handleFileImport.
  destruct files as [|f files]; [exists []; by rewrite app_nil_r|].
  destruct (importFiles_Part000 btoa (f :: files) (db s) [] Hopen)
    as (d' & kept & -> & Hids & _).
  cbn [await fst snd app]. exists kept. split; [|done].
  destruct kept as [|t kept]; [by rewrite app_nil_r|].
  by destruct activeTab.
Qed.

Lemma handleFileImport_Part000_witness :
  let pick (name type : string) (id : string) (o : MusicDB.ReqOutcome) :=
    {| file := {| File.name := name;
                  File.blob := {| blob_type := type; blob_content := [] |} |};
       reader := Unavailable; probed := 0; newId := id; now := 0; saved := o |} in
  exists batch,
    tracks (handleFileImport (fun b => b) Part000 PlayerMode.library
              [pick "one.mp3" "audio/mpeg" "x" MusicDB.ReqSuccess;
               pick "notes.txt" "text/plain" "y" MusicDB.ReqSuccess;
               pick "two.ogg" "audio/ogg" "z" MusicDB.ReqError]
              (Sample.listening Part000))
    = tracks (Sample.listening Part000) ++ batch
    /\ ids batch = ["x"].
Proof.
  intros pick.
  edestruct (handleFileImport_Part000 (fun b => b) PlayerMode.library
              [pick "one.mp3" "audio/mpeg" "x" MusicDB.ReqSuccess;
               pick "notes.txt" "text/plain" "y" MusicDB.ReqSuccess;
               pick "two.ogg" "audio/ogg" "z" MusicDB.ReqError]
              (Sample.listening Part000)) as (batch & Ht & Hids).
  - vm_compute. eexists. reflexivity.
  - exists batch. split; [exact Ht|]. rewrite Hids. reflexivity.
Defined.

(** X20: in [src/App.tsx], an import on an open store appends every audio
    file when all of them are saved; when the store refuses one of them the
    handler ends there and no cell changes: the library shows none of the
    batch, not even the files saved before the refusal. *)
Theorem handleFileImport_AppTsx (btoa : string -> string) (activeTab : PlayerMode.t)
    (files : list Picked) (s : State) :
  is_Some (MusicDB.db (db s)) ->
  let s' := handleFileImport btoa AppTsx activeTab files s in
  (Forall (fun f => isAudio (file f) = true -> saved f = MusicDB.ReqSuccess) files ->
   exists batch,
     tracks s' = tracks s ++ batch
     /\ ids batch = newId <$> filter (fun f => isAudio (file f) = true) files)
  /\ (Exists (fun f => isAudio (file f) = true /\ saved f = MusicDB.ReqError) files ->
      cells s' = cells s)
  /\ currentQueue s' = currentQueue s
  /\ currentTrackIndex s' = currentTrackIndex s.
Proof.
  intros Hopen s'. subst s'. unfold handleFileImport.
  destruct files as [|f files].
  { split; [intros _; exists []; by rewrite app_nil_r|]. by repeat split. }
  destruct (importFiles_AppTsx btoa (f :: files) (db s) [] Hopen) as [H1 H2].
  split; [|split].
  - intros Hall. destruct (H1 Hall) as (d' & kept & -> & Hids).
    cbn [await fst snd app]. by exists kept.
  - intros Hex. destruct (H2 Hex) as (d' & ->). reflexivity.
  - by destruct (importFiles btoa AppTsx (f :: files) (db s) []) as [d' [kept|e]].
Qed.

Lemma handleFileImport_AppTsx_witness :
  let pick (type : string) (id : string) (o : MusicDB.ReqOutcome) :=
    {| file := {| File.name := "f"; File.blob := {| blob_type := type; blob_content := [] |} |};
       reader := ReadError; probed := 0; newId := id; now := 0; saved := o |} in
  tracks (handleFileImport (fun b => b) AppTsx PlayerMode.library
            [pick "audio/mpeg" "x" MusicDB.ReqSuccess;
             pick "audio/ogg" "z" MusicDB.ReqError]
            (Sample.listening AppTsx))
  = tracks (Sample.listening AppTsx).
Proof.
  intros pick.
  edestruct (handleFileImport_AppTsx (fun b => b) PlayerMode.library
              [pick "audio/mpeg" "x" MusicDB.ReqSuccess;
               pick "audio/ogg" "z" MusicDB.ReqError]
              (Sample.listening AppTsx)) as (_ & H & _).
  - vm_compute. eexists. reflexivity.
  - apply cells_inv in H as (Ht & _); [exact Ht|].
    apply Exists_cons_tl, Exists_cons_hd. split; reflexivity.
Defined.

Lemma importFiles_Part000_resolves btoa files : forall d batch,
  exists d' kept, importFiles btoa Part000 files d batch = (d', Resolved (batch ++ kept)).
Proof.
  induction files as [|f files IH]; intros d batch.
  - exists d, []. by rewrite app_nil_r.
  - cbn [importFiles]. destruct (isAudio (file f)); [|apply IH].
    destruct (getMetadata_resolves btoa Part000 (reader f) (file f)) as [tags ->].
    destruct (MusicDB.saveTrack _ _ d) as [d1 [[]|e]]; [|apply IH].
    destruct (IH d1 (batch ++ [importedTrack Part000 (newId f) (now f) (probed f)
                                 (file f) tags])) as (d' & kept & ->).
    eexists d', (_ :: kept). by rewrite <- app_assoc.
Qed.

(** X21: an import never moves the index or the playing flag.  In
    [part_000] the queue is left alone on every tab but the library, where a
    non-empty batch makes the whole new library the queue; when the queue
    was the library, the current track stays the same and a valid index
    stays valid. *)
Theorem handleFileImport_Part000_queue (btoa : string -> string)
    (activeTab : PlayerMode.t) (files : list Picked) (s : State) :
  let s' := handleFileImport btoa Part000 activeTab files s in
  currentTrackIndex s' = currentTrackIndex s
  /\ isPlaying s' = isPlaying s
  /\ (activeTab <> PlayerMode.library -> currentQueue s' = currentQueue s)
  /\ (activeTab = PlayerMode.library -> tracks s' <> tracks s ->
      currentQueue s' = tracks s')
  /\ (currentQueue s = tracks s ->
      (forall t, currentTrack s = Some t -> currentTrack s' = Some t)
      /\ (indexValid s -> indexValid s')).
Proof.
  intros s'. subst s'. unfold handleFileImport.
  destruct files as [|f files].
  { repeat split; try done. }
  destruct (importFiles_Part000_resolves btoa (f :: files) (db s) []) as (d' & kept & ->).
  cbn [await fst snd app].
  destruct kept as [|t0 kept].
  { repeat split; try done. }
  split; [by destruct activeTab|]. split; [by destruct activeTab|].
  split; [by destruct activeTab|]. split; [intros -> _; reflexivity|].
  intros Hq. split.
  - intros t. unfold currentTrack.
    destruct activeTab; cbn; try done.
    destruct (currentTrackIndex s) as [i|]; [|done].
    unfold array_get. destruct (0 <=? i)%Z; [|done]. rewrite Hq.
    apply lookup_app_l_Some.
  - unfold indexValid, len. destruct activeTab; cbn; try done.
    destruct (currentTrackIndex s) as [i|]; [|done].
    rewrite Hq, length_app. lia.
Qed.

Lemma handleFileImport_Part000_queue_witness :
  let pick :=
    {| file := {| File.name := "one.mp3";
                  File.blob := {| blob_type := "audio/mpeg"; blob_content := [] |} |};
       reader := Unavailable; probed := 0; newId := "x"; now := 0;
       saved := MusicDB.ReqSuccess |} in
  currentTrack (handleFileImport (fun b => b) Part000 PlayerMode.library [pick]
                  (Sample.listening Part000))
  = Some Sample.B.
Proof.
  intros pick.
  edestruct (handleFileImport_Part000_queue (fun b => b) PlayerMode.library [pick]
               (Sample.listening Part000)) as (_ & _ & _ & _ & H).
  destruct H as [H _]; [vm_compute; reflexivity|].
  apply H. vm_compute. reflexivity.
Defined.

(** ** Playlists, continued *)

Lemma activePlaylistTracks_elem playlistId s k p t :
  list_find (fun p => Playlist.id p = playlistId) (playlists s) = Some (k, p) ->
  t ∈ activePlaylistTracks playlistId s ->
  t ∈ tracks s /\ Track.id t ∈ Playlist.trackIds p.
Proof.
  intros Hf. unfold activePlaylistTracks. rewrite Hf.
  rewrite list_elem_of_omap. intros (id & Hid & Hfind).
  destruct (list_find _ (tracks s)) as [[i t']|] eqn:Ht; [|discriminate].
  injection Hfind as <-. apply list_find_Some in Ht as (Hl & <- & _).
  split; [by eapply list_elem_of_lookup_2 | done].
Qed.

Lemma activePlaylistTracks_library playlistId s t :
  t ∈ activePlaylistTracks playlistId s -> t ∈ tracks s.
Proof.
  destruct (list_find (fun p => Playlist.id p = playlistId) (playlists s))
    as [[k p]|] eqn:Hf.
  - intros Hin. by destruct (activePlaylistTracks_elem _ _ _ _ _ Hf Hin).
  - unfold activePlaylistTracks. rewrite Hf. by intros ?%not_elem_of_nil.
Qed.



Lemma omap_find_filter (id : string) (library : list Track.t) (tids : list string) :
  omap (fun tid => snd <$> list_find (fun t => Track.id t = tid) library)
       (filter (fun tid => tid ≠ id) tids)
  = filter (fun t => Track.id t ≠ id)
      (omap (fun tid => snd <$> list_find (fun t => Track.id t = tid) library) tids).
Proof.
  induction tids as [|tid tids IH]; [done|].
  destruct (decide (tid = id)) as [->|Hne].
  - rewrite filter_cons_False by (by intros ?). cbn [omap list_omap].
    destruct (list_find _ library) as [[i t]|] eqn:Ht;
      cbn [fmap option_fmap option_map snd]; [|exact IH].
    apply list_find_Some in Ht as (_ & Hid & _).
    rewrite filter_cons_False by (by intros ?). exact IH.
  - rewrite filter_cons_True by done. cbn [omap list_omap].
    destruct (list_find _ library) as [[i t]|] eqn:Ht;
      cbn [fmap option_fmap option_map snd]; [|exact IH].
    apply list_find_Some in Ht as (_ & Hid & _).
    rewrite filter_cons_True by congruence. by rewrite <- IH.
Qed.

(** X23: in [src/App.tsx] the [X] button of a playlist row takes every
    track with the row's id out of that playlist's view and keeps the other
    rows in order; the library is untouched, and the state changes whether
    or not the store accepts the save. *)
Theorem playlistRowRemove_AppTsx (env : Env) (playlistId : string) (row : nat)
    (s : State) (k : nat) (p : Playlist.t) (track : Track.t) :
  list_find (fun p => Playlist.id p = playlistId) (playlists s) = Some (k, p) ->
  activePlaylistTracks playlistId s !! row = Some track ->
  let s' := playlistRowRemove AppTsx env playlistId row s in
  activePlaylistTracks playlistId s'
  = filter (fun t => Track.id t ≠ Track.id track) (activePlaylistTracks playlistId s)
  /\ (track ∉ activePlaylistTracks playlistId s')
  /\ tracks s' = tracks s
  /\ currentQueue s' = currentQueue s
  /\ currentTrackIndex s' = currentTrackIndex s.
Proof.
  intros Hf Hrow s'. subst s'. unfold playlistRowRemove. rewrite Hf, Hrow.
  pose proof Hf as Hf'. apply list_find_Some in Hf' as (_ & Hid & _).
  assert (Hview : activePlaylistTracks playlistId
                    (setPlaylists
                       ((fun pl => if bool_decide (Playlist.id pl = Playlist.id p)
                                   then withoutTrack (Track.id track) p else pl)
                          <$> playlists s)
                       (setDb (MusicDB.savePlaylist
                                 (request env (SavePlaylist (Playlist.id p)))
                                 (withoutTrack (Track.id track) p) (db s)).1 s))
                  = filter (fun t => Track.id t ≠ Track.id track)
                      (activePlaylistTracks playlistId s)).
  { unfold activePlaylistTracks at 1. cbn [playlists tracks setPlaylists setDb].
    rewrite Hid.
    rewrite (list_find_replaced playlistId (withoutTrack (Track.id track) p)
               (playlists s) Hid k p Hf).
    unfold activePlaylistTracks. rewrite Hf. cbn [withoutTrack Playlist.trackIds].
    apply omap_find_filter. }
  split; [exact Hview|]. split; [|done].
  rewrite Hview. rewrite list_elem_of_filter. by intros [? _].
Qed.

Lemma playlistRowRemove_AppTsx_witness :
  activePlaylistTracks "p" (playlistRowRemove AppTsx Fixture.failing "p" 0
                              (Sample.listening AppTsx))
  = [].
Proof.
  edestruct (playlistRowRemove_AppTsx Fixture.failing "p" 0 (Sample.listening AppTsx))
    as (H & _).
  - vm_compute. reflexivity.
  - vm_compute. reflexivity.
  - rewrite H. vm_compute. reflexivity.
Defined.

(** X24: whichever file runs, once a track is deleted with the store
    answering, no playlist view shows a track with its id, although
    [src/App.tsx] leaves the id in the playlists. *)
Theorem removed_track_not_shown (src : Source) (env : Env) (id playlistId : string)
    (s : State) :
  allSucceed env ->
  is_Some (MusicDB.db (db s)) ->
  forall t, t ∈ activePlaylistTracks playlistId (step src env (RemoveTrack id) s) ->
            Track.id t <> id.
Proof.
  intros Hall Hopen t Hin. apply activePlaylistTracks_library in Hin.
  pose proof (step_cells src env (RemoveTrack id) s) as Hc.
  cbn [handle] in Hc. rewrite (removeTrack_cells src env id s Hall Hopen) in Hc.
  apply cells_fields in Hc as (Ht & _). rewrite Ht in Hin.
  by apply list_elem_of_filter in Hin as [? _].
Qed.

Lemma removed_track_not_shown_witness :
  activePlaylistTracks "p" (step AppTsx Sample.env (RemoveTrack "a")
                              (Sample.listening AppTsx)) = []
  /\ forall t, t ∈ activePlaylistTracks "p" (step AppTsx Sample.env (RemoveTrack "a")
                                               (Sample.listening AppTsx)) ->
               Track.id t <> "a".
Proof.
  split; [vm_compute; reflexivity|].
  apply (removed_track_not_shown AppTsx Sample.env "a" "p" (Sample.listening AppTsx)).
  - intros q. reflexivity.
  - vm_compute. eexists. reflexivity.
Defined.

Lemma list_find_app_fresh (playlistId : string) (l : list Playlist.t) (p : Playlist.t) :
  Forall (fun q => Playlist.id q ≠ playlistId) l ->
  Playlist.id p = playlistId ->
  list_find (fun q => Playlist.id q = playlistId) (l ++ [p]) = Some (length l, p).
Proof.
  intros Hall Hp. induction l as [|q l IH]; cbn.
  - by rewrite decide_True.
  - apply Forall_cons in Hall as [Hq Hall]. rewrite decide_False by done.
    by rewrite (IH Hall).
Qed.

(** X25: creating a playlist does nothing for a name that trims to the
    empty string or when the store refuses the save; otherwise it appends
    one playlist with the generated id and no tracks ([part_000] keeps the
    trimmed name, [src/App.tsx] the name as typed) and stores it.  No
    playlist lists a track twice afterwards if none did before, and a new
    playlist with a fresh id shows no track. *)
Theorem handleCreatePlaylist_appends (trim : string -> string) (src : Source)
    (o : MusicDB.ReqOutcome) (newId : string) (now : Z) (name : string) (s : State) :
  let s' := handleCreatePlaylist trim src o newId now name s in
  let p := Playlist.mk newId
             (match src with AppTsx => name | Part000 => trim name end) [] now in
  (trim name = "" -> s' = s)
  /\ (is_Some (MusicDB.db (db s)) -> o = MusicDB.ReqError -> s' = s)
  /\ (trim name <> "" -> is_Some (MusicDB.db (db s)) -> o = MusicDB.ReqSuccess ->
      playlists s' = playlists s ++ [p]
      /\ (exists d', MusicDB.db (db s') = Some d'
            /\ MusicDB.playlists_store d' !! newId = Some p)
      /\ (Forall (fun q => Playlist.id q ≠ newId) (playlists s) ->
          activePlaylistTracks newId s' = [] /\ playAll newId s' = s'))
  /\ (playlistsNoDup s -> playlistsNoDup s')
  /\ tracks s' = tracks s /\ currentQueue s' = currentQueue s
  /\ currentTrackIndex s' = currentTrackIndex s.
Proof.
  intros s' p. subst s'. unfold handleCreatePlaylist.
  destruct (String.eqb_spec (trim name) "") as [Hempty|Hname].
  { repeat split; try done. }
  fold p. split; [done|]. split; [|split; [|split]].
  - intros [d Hd] ->. unfold MusicDB.savePlaylist. by rewrite (write_error _ _ _ _ d Hd).
  - intros _ [d Hd] ->. unfold MusicDB.savePlaylist.
    rewrite (write_success _ _ _ _ d Hd). cbn [await fst snd].
    split; [reflexivity|]. split.
    + eexists. split; [reflexivity|]. cbn. apply lookup_insert_eq.
    + intros Hfresh.
      assert (Hview : activePlaylistTracks newId
                (setPlaylists (playlists s ++ [p])
                   (setDb {| MusicDB.db := Some
                       (MusicDB.with_playlists d
                          (<[Playlist.id p := p]> (MusicDB.playlists_store d))) |} s))
              = []).
      { unfold activePlaylistTracks. cbn [playlists setPlaylists setDb].
        by rewrite (list_find_app_fresh newId (playlists s) p Hfresh eq_refl). }
      split; [exact Hview|]. unfold playAll. by rewrite Hview.
  - intros Hnd. destruct (MusicDB.savePlaylist o p (db s)) as [d' [[]|e]];
      cbn [await fst snd]; [|done].
    unfold playlistsNoDup. cbn [playlists setPlaylists].
    apply Forall_app. split; [exact Hnd|]. apply Forall_singleton. cbn. constructor.
  - by destruct (MusicDB.savePlaylist o p (db s)) as [d' [[]|e]].
Qed.

Lemma handleCreatePlaylist_appends_witness :
  let trim (x : string) := if String.eqb x "  " then "" else x in
  handleCreatePlaylist trim Part000 MusicDB.ReqSuccess "q" 0 "  "
    (Sample.listening Part000) = Sample.listening Part000
  /\ Playlist.id <$> playlists (handleCreatePlaylist trim Part000 MusicDB.ReqSuccess "q" 0
                                  "Road" (Sample.listening Part000))
     = ["p"; "q"].
Proof.
  intros trim.
  destruct (handleCreatePlaylist_appends trim Part000 MusicDB.ReqSuccess "q" 0 "  "
              (Sample.listening Part000)) as (Hblank & _).
  destruct (handleCreatePlaylist_appends trim Part000 MusicDB.ReqSuccess "q" 0 "Road"
              (Sample.listening Part000)) as (_ & _ & Hnew & _).
  split; [apply Hblank; reflexivity|].
  destruct Hnew as (Hp & _); [discriminate | vm_compute; by eexists | reflexivity |].
  rewrite Hp. vm_compute. reflexivity.
Defined.

(** X26: a track offered by the add-from-library sheet of a playlist is not
    yet listed by it; adding it, with the store accepting the save, puts its
    id at the end of the playlist and takes every track with that id off the
    sheet, the other offers staying in order. *)
Theorem add_candidate (env : Env) (playlistId : string) (s : State) (k : nat)
    (p : Playlist.t) (t : Track.t) :
  list_find (fun p => Playlist.id p = playlistId) (playlists s) = Some (k, p) ->
  t ∈ libraryCandidates playlistId s ->
  request env (SavePlaylist playlistId) = MusicDB.ReqSuccess ->
  is_Some (MusicDB.db (db s)) ->
  let s' := addTrackToPlaylist env playlistId (Track.id t) s in
  (Track.id t ∉ Playlist.trackIds p)
  /\ list_find (fun p => Playlist.id p = playlistId) (playlists s')
     = Some (k, withTrack (Track.id t) p)
  /\ libraryCandidates playlistId s'
     = filter (fun x => Track.id x ≠ Track.id t) (libraryCandidates playlistId s)
  /\ (t ∉ libraryCandidates playlistId s').
Proof.
  intros Hf Hin Hreq [d Hd] s'.
  assert (Hnot : Track.id t ∉ Playlist.trackIds p).
  { unfold libraryCandidates in Hin. rewrite Hf in Hin.
    by apply list_elem_of_filter in Hin as [? _]. }
  pose proof Hf as Hf'. apply list_find_Some in Hf' as (_ & Hid & _).
  assert (Hs' : s' = setPlaylists
                  ((fun q => if bool_decide (Playlist.id q = playlistId)
                             then withTrack (Track.id t) p else q) <$> playlists s)
                  (setDb (MusicDB.savePlaylist MusicDB.ReqSuccess
                            (withTrack (Track.id t) p) (db s)).1 s)).
  { subst s'. unfold addTrackToPlaylist. rewrite Hf, Hreq.
    rewrite bool_decide_eq_false_2 by done.
    unfold MusicDB.savePlaylist. by rewrite (write_success _ _ _ _ d Hd). }
  assert (Hf2 : list_find (fun p => Playlist.id p = playlistId) (playlists s')
                = Some (k, withTrack (Track.id t) p)).
  { rewrite Hs'. cbn [playlists setPlaylists].
    by apply (list_find_replaced playlistId (withTrack (Track.id t) p) _ Hid k p). }
  assert (Ht : tracks s' = tracks s) by (by rewrite Hs').
  assert (Hview : libraryCandidates playlistId s'
                  = filter (fun x => Track.id x ≠ Track.id t)
                      (libraryCandidates playlistId s)).
  { unfold libraryCandidates. rewrite Hf2, Hf, Ht. cbn [withTrack Playlist.trackIds].
    rewrite list_filter_filter. apply list_filter_iff. intros x.
    rewrite elem_of_app, list_elem_of_singleton. tauto. }
  split; [done|]. split; [done|]. split; [done|].
  rewrite Hview, list_elem_of_filter. by intros [? _].
Qed.

Lemma add_candidate_witness :
  libraryCandidates "p" (addTrackToPlaylist Sample.env "p" "b" (Sample.listening Part000))
  = [].
Proof.
  edestruct (add_candidate Sample.env "p" (Sample.listening Part000) 0 Sample.mix Sample.B)
    as (_ & _ & H & _).
  - vm_compute. reflexivity.
  - vm_compute. repeat constructor.
  - reflexivity.
  - vm_compute. eexists. reflexivity.
  - change (Track.id Sample.B) with "b" in H. rewrite H. vm_compute. reflexivity.
Defined.

(** X27: deleting the open playlist, once confirmed where the file asks and
    with the store answering, leaves no playlist with that id and keeps the
    others; its view is then empty, while the library, the queue and the
    index stay as they were.  Without confirmation in [src/App.tsx], or when
    the store refuses, nothing changes. *)
Theorem deletePlaylistClick_removes (src : Source) (confirmed : bool)
    (o : MusicDB.ReqOutcome) (playlistId : string) (s : State) :
  let s' := deletePlaylistClick src confirmed o playlistId s in
  (src = AppTsx -> confirmed = false -> s' = s)
  /\ (is_Some (MusicDB.db (db s)) -> o = MusicDB.ReqError -> s' = s)
  /\ ((src = Part000 \/ confirmed = true) -> is_Some (MusicDB.db (db s)) ->
      o = MusicDB.ReqSuccess ->
      (forall q, q ∈ playlists s' -> Playlist.id q <> playlistId)
      /\ (forall q, Playlist.id q <> playlistId -> (q ∈ playlists s' <-> q ∈ playlists s))
      /\ activePlaylistTracks playlistId s' = [])
  /\ tracks s' = tracks s /\ currentQueue s' = currentQueue s
  /\ currentTrackIndex s' = currentTrackIndex s /\ isPlaying s' = isPlaying s.
Proof.
  intros s'. subst s'. unfold deletePlaylistClick.
  destruct (list_find _ (playlists s)) as [[k p]|] eqn:Hf.
  - pose proof Hf as Hf'. apply list_find_Some in Hf' as (_ & Hid & _).
    split; [by intros -> ->|]. split; [|split].
    + intros [d Hd] ->. unfold MusicDB.deletePlaylist.
      rewrite (write_error _ _ _ _ d Hd). by destruct src, confirmed.
    + intros Hgo [d Hd] ->. unfold MusicDB.deletePlaylist.
      rewrite (write_success _ _ _ _ d Hd).
      assert (Hp : match src with AppTsx => confirmed | Part000 => true end = true)
        by (destruct Hgo as [Hgo | Hgo]; rewrite Hgo; [done | by destruct src]).
      rewrite Hp. cbn [await fst snd playlists setPlaylists setDb]. rewrite Hid.
      assert (Hnone : forall q, q ∈ filter (fun x => Playlist.id x ≠ playlistId)
                                      (playlists s) -> Playlist.id q <> playlistId)
        by (intros q Hq; by apply list_elem_of_filter in Hq as [? _]).
      split; [exact Hnone|]. split.
      * intros q Hq. rewrite list_elem_of_filter. tauto.
      * unfold activePlaylistTracks. cbn [playlists setPlaylists setDb].
        destruct (list_find _ (filter _ (playlists s))) as [[i q]|] eqn:Hq; [|done].
        apply list_find_Some in Hq as (Hl & Hq & _).
        apply list_elem_of_lookup_2 in Hl. by destruct (Hnone q Hl).
    + destruct (match src with AppTsx => confirmed | Part000 => true end); [|done].
      by destruct (MusicDB.deletePlaylist o (Playlist.id p) (db s)) as [d' [[]|e]].
  - split; [done|]. split; [done|]. split; [|done].
    intros _ _ _. split; [|split].
    + intros q Hq Hqid. apply list_find_None in Hf. rewrite Forall_forall in Hf.
      by apply (Hf q Hq).
    + done.
    + unfold activePlaylistTracks. by rewrite Hf.
Qed.

Lemma deletePlaylistClick_removes_witness :
  playlists (deletePlaylistClick AppTsx true MusicDB.ReqSuccess "p"
               (Sample.listening AppTsx)) = []
  /\ deletePlaylistClick AppTsx false MusicDB.ReqSuccess "p" (Sample.listening AppTsx)
     = Sample.listening AppTsx.
Proof.
  destruct (deletePlaylistClick_removes AppTsx false MusicDB.ReqSuccess "p"
              (Sample.listening AppTsx)) as (H & _).
  split; [vm_compute; reflexivity|]. apply H; reflexivity.
Defined.
